(** * Verification of the Anki settings controller (ext/js/pages/settings/anki-controller.js)

    A shallow embedding of [AnkiController] (card-format list, selection,
    error display) and [AnkiCardController] (field rows: rename, add,
    validation, default marker lookup), with the JavaScript primitives the
    code relies on written out: number printing and [Number.parseInt],
    [String.prototype.trim], and the own-property order of plain objects
    (array-index keys first in ascending numeric order, then the other string
    keys in creation order). *)

From Stdlib Require Import String Ascii List ZArith Lia Bool.
From Stdlib Require Import Sorting.Permutation.
From Stdlib Require Import DecimalString DecimalZ.
Import ListNotations.
Open Scope string_scope.
Open Scope Z_scope.
Open Scope list_scope.

(* ------------------------------------------------------------------------- *)
(** ** JavaScript primitives *)

Module Js.

(** Strings are Rocq strings of 8-bit characters. *)

(** [`${n}`] / [n.toString()] for an integral number. *)
Definition number_to_string (z : Z) : string :=
  NilZero.string_of_int (Z.to_int z).

Definition is_digit (c : ascii) : bool :=
  let n := nat_of_ascii c in (48 <=? n)%nat && (n <=? 57)%nat.

(** WhiteSpace and LineTerminator code points representable in 8 bits:
    TAB, LF, VT, FF, CR, SPACE, NBSP. *)
Definition is_space (c : ascii) : bool :=
  let n := nat_of_ascii c in
  ((9 <=? n)%nat && (n <=? 13)%nat) || (n =? 32)%nat || (n =? 160)%nat.

Fixpoint trim_start (s : string) : string :=
  match s with
  | EmptyString => EmptyString
  | String c r => if is_space c then trim_start r else s
  end.

Definition trim_end (s : string) : string :=
  string_of_list_ascii (rev (list_ascii_of_string
    (trim_start (string_of_list_ascii (rev (list_ascii_of_string s)))))).

(** [String.prototype.trim]. *)
Definition trim (s : string) : string := trim_end (trim_start s).

Fixpoint digit_prefix (s : string) : string :=
  match s with
  | EmptyString => EmptyString
  | String c r => if is_digit c then String c (digit_prefix r) else EmptyString
  end.

(** [Number.parseInt(s, 10)]; [None] is [NaN]. *)
Definition parse_int (s : string) : option Z :=
  let s1 := trim_start s in
  let '(neg, s2) :=
    match s1 with
    | String "-"%char r => (true, r)
    | String "+"%char r => (false, r)
    | _ => (false, s1)
    end in
  match digit_prefix s2 with
  | EmptyString => None
  | ds =>
      match NilEmpty.uint_of_string ds with
      | Some d => Some (if neg then Z.opp (Z.of_uint d) else Z.of_uint d)
      | None => None
      end
  end.

Fixpoint all_digits (s : string) : bool :=
  match s with
  | EmptyString => true
  | String c r => is_digit c && all_digits r
  end.

(** Array-index property keys: canonical decimal strings of integers in
    [0, 2^32 - 2]. *)
Definition is_array_index (k : string) : bool :=
  match k with
  | EmptyString => false
  | String "0"%char EmptyString => true
  | String "0"%char _ => false
  | String _ _ =>
      all_digits k &&
      match NilEmpty.uint_of_string k with
      | Some d => Z.of_uint d <? 4294967295
      | None => false
      end
  end.

Definition index_value (k : string) : Z :=
  match NilEmpty.uint_of_string k with
  | Some d => Z.of_uint d
  | None => 0
  end.

(** A plain object: its properties in creation order (keys are unique). *)
Definition obj (A : Type) := list (string * A).

Section Obj.
Context {A : Type}.

Definition keys (o : obj A) : list string := map fst o.

(** [Object.prototype.hasOwnProperty.call(o, k)] *)
Definition has_own (o : obj A) (k : string) : bool :=
  existsb (fun kv => String.eqb k (fst kv)) o.

Fixpoint get (o : obj A) (k : string) : option A :=
  match o with
  | [] => None
  | (k', v) :: r => if String.eqb k k' then Some v else get r k
  end.

Fixpoint insert_index (kv : string * A) (l : obj A) : obj A :=
  match l with
  | [] => [kv]
  | kv' :: r =>
      if index_value (fst kv) <=? index_value (fst kv')
      then kv :: kv' :: r else kv' :: insert_index kv r
  end.

Fixpoint sort_index (l : obj A) : obj A :=
  match l with
  | [] => []
  | kv :: r => insert_index kv (sort_index r)
  end.

Definition is_index_entry (kv : string * A) : bool := is_array_index (fst kv).

(** [Object.entries(o)] / OrdinaryOwnPropertyKeys: array indices ascending,
    then the other keys in creation order. *)
Definition entries (o : obj A) : obj A :=
  sort_index (filter is_index_entry o) ++
  filter (fun kv => negb (is_index_entry kv)) o.

(** CreateDataProperty: an existing key keeps its place, a new one is
    created last. *)
Definition define (o : obj A) (k : string) (v : A) : obj A :=
  if has_own o k
  then map (fun kv => if String.eqb k (fst kv) then (k, v) else kv) o
  else o ++ [(k, v)].

(** An object literal built from a sequence of property definitions. *)
Definition of_entries (l : obj A) : obj A :=
  fold_left (fun acc kv => define acc (fst kv) (snd kv)) l [].

(** [{...o, [k]: v}] *)
Definition spread_with (o : obj A) (k : string) (v : A) : obj A :=
  define (of_entries (entries o)) k v.

(** [const {[k]: _, ...rest} = o] : the [rest] object. *)
Definition rest_without (o : obj A) (k : string) : obj A :=
  of_entries (filter (fun kv => negb (String.eqb k (fst kv))) (entries o)).

End Obj.

End Js.

(* ------------------------------------------------------------------------- *)
(** ** AnkiCardController: the field rows of one card format *)

Module AnkiCard.
Import Js.

(** [import('settings').AnkiField] *)
Record anki_field := mk_field {
  af_value : string;
  af_overwrite_mode : string
}.

(** [import('settings').AnkiFields]: field name -> field, in object order. *)
Definition anki_fields := obj anki_field.

(** A key of the path given to [ObjectPropertyAccessor.getPathString]. *)
Inductive path_key := PStr (s : string) | PNum (n : Z).

(** A [modifyProfileSettings] patch of action ['set']. *)
Record set_patch := mk_set_patch {
  sp_path : list path_key;
  sp_value : anki_fields
}.

(** The controller state the field operations touch: [_fields],
    [_fieldEntries] (only their [fieldName]), [_cardFormatIndex], and the
    patches sent to the settings store. *)
Record card_ctrl := mk_card_ctrl {
  cc_fields : anki_fields;
  cc_field_entries : list string;
  cc_card_format_index : Z;
  cc_patches : list set_patch
}.

Definition fields_path (st : card_ctrl) : list path_key :=
  [PStr "anki"; PStr "cardFormats"; PNum (cc_card_format_index st); PStr "fields"].

(** [_setupFields]: one row per entry of [Object.entries(this._fields)]. *)
Definition setup_fields (st : card_ctrl) : card_ctrl :=
  mk_card_ctrl (cc_fields st) (map fst (entries (cc_fields st)))
    (cc_card_format_index st) (cc_patches st).

(** [modifyProfileSettings([{action: 'set', path: ..fields, value}])],
    then [this._fields = newFields; this._setupFields()]. *)
Definition store_fields (st : card_ctrl) (new_fields : anki_fields) : card_ctrl :=
  setup_fields
    (mk_card_ctrl new_fields (cc_field_entries st) (cc_card_format_index st)
       (cc_patches st ++ [mk_set_patch (fields_path st) new_fields])).

(** [_onFieldNameBlur(index, e)]: [node_value] is [node.value]; the result
    is the new state and the value left in the name input. *)
Definition on_field_name_blur (st : card_ctrl) (index : nat) (node_value : string)
  : card_ctrl * string :=
  let new_name := trim node_value in
  match nth_error (cc_field_entries st) index with
  | None => (st, node_value)
  | Some old_name =>
      if String.eqb new_name old_name then (st, node_value)
      else if String.eqb new_name "" then (st, old_name)
      else if has_own (cc_fields st) new_name then (st, old_name)
      else
        match get (cc_fields st) old_name with
        | Some removed =>
            let rest := rest_without (cc_fields st) old_name in
            let new_fields := spread_with rest new_name removed in
            (store_fields st new_fields, node_value)
        | None =>
            (* unreachable: [_fieldEntries] lists the keys of [_fields] *)
            (st, node_value)
        end
  end.

Definition base_name : string := "Field".

(** The [counter]-th name tried by [_onAddFieldClick]: ['Field'], then
    [`${baseName}${counter}`]. *)
Definition candidate_name (counter : nat) : string :=
  match counter with
  | O => base_name
  | S _ => (base_name ++ number_to_string (Z.of_nat counter))%string
  end.

(** The [while (hasOwnProperty(this._fields, name))] loop, run for at most
    [fuel] more increments of [counter]. *)
Fixpoint find_free_name (fields : anki_fields) (fuel counter : nat) : option string :=
  let name := candidate_name counter in
  if has_own fields name then
    match fuel with
    | O => None
    | S fuel' => find_free_name fields fuel' (S counter)
    end
  else Some name.

Definition new_field : anki_field := mk_field "" "coalesce".

(** [_onAddFieldClick]. The loop is given [length fields] increments, which
    always suffice (lemma [find_free_name_total]). *)
Definition on_add_field_click (st : card_ctrl) : card_ctrl :=
  match find_free_name (cc_fields st) (length (cc_fields st)) 0 with
  | Some name => store_fields st (spread_with (cc_fields st) name new_field)
  | None => st
  end.

End AnkiCard.

(* ------------------------------------------------------------------------- *)
(** ** AnkiController: the card-format list and its selection *)

Module Anki.
Import Js AnkiCard.

(** [import('settings').AnkiCardFormat] *)
Record card_format := mk_card_format {
  cf_name : string;
  cf_type : string;
  cf_deck : string;
  cf_model : string;
  cf_fields : anki_fields;
  cf_icon : string
}.

(** An input or select element of the card panel: its [dataset.setting]
    (as the key list given to [getPathString]) and [dataset.icon]. *)
Record input_el := mk_input_el {
  el_setting : option (list path_key);
  el_icon : option string
}.

(** [#anki-card-primary]: its dataset and the children looked up with
    [querySelectorNotNull] ([None] when the child is absent). *)
Record panel := mk_panel {
  pn_card_format_index : option string;
  pn_anki_card_menu : option string;
  pn_type_select : option input_el;
  pn_icon_select : option input_el;
  pn_deck_input : option input_el;
  pn_model_input : option input_el
}.

(** A tab of [#anki-cards-tabs] built by [_createCardFormatTab]. *)
Record tab := mk_tab {
  tab_value : string;
  tab_card_format_index : string;
  tab_menu : string;
  tab_label : string;
  tab_checked : bool
}.

(** The part of the [AnkiController] instance the format operations use,
    together with the [anki.cardFormats] list of the profile settings. *)
Record ctrl := mk_ctrl {
  c_store : list card_format;
  c_anki_options : option (list card_format);
  c_card_format_index : Z;
  c_primary : option panel;
  c_name_input : input_el;
  c_tabs : list tab;
  c_delete_disabled : bool;
  c_remove_modal_visible : bool;
  c_remove_modal_index : option string;
  c_remove_name : string;
  c_maximum_modal : option bool
}.

(** Synchronous JavaScript with exceptions over the controller state: a
    thrown error keeps the updates made before it. *)
Inductive result (A : Type) :=
| Ret (a : A) (s : ctrl)
| Throw (msg : string) (s : ctrl).
Arguments Ret {A}.
Arguments Throw {A}.

Definition M (A : Type) := ctrl -> result A.

Definition ret {A} (a : A) : M A := fun s => Ret a s.
Definition bind {A B} (m : M A) (k : A -> M B) : M B :=
  fun s => match m s with Ret a s' => k a s' | Throw e s' => Throw e s' end.
Definition get_st : M ctrl := fun s => Ret s s.
Definition modify (f : ctrl -> ctrl) : M unit := fun s => Ret tt (f s).
Definition throw {A} (msg : string) : M A := fun s => Throw msg s.

Notation "x <- m ;; k" := (bind m (fun x => k)) (at level 61, m at next level, right associativity).
Notation "m ;;; k" := (bind m (fun _ => k)) (at level 61, right associativity).

Definition state_of {A} (r : result A) : ctrl :=
  match r with Ret _ s => s | Throw _ s => s end.

(** [querySelectorNotNull] *)
Definition query_not_null {X} (o : option X) : M X :=
  match o with Some x => ret x | None => throw "Element not found" end.

Definition set_index (i : Z) (s : ctrl) : ctrl :=
  mk_ctrl (c_store s) (c_anki_options s) i (c_primary s) (c_name_input s) (c_tabs s)
    (c_delete_disabled s) (c_remove_modal_visible s) (c_remove_modal_index s)
    (c_remove_name s) (c_maximum_modal s).
Definition set_primary (p : panel) (s : ctrl) : ctrl :=
  mk_ctrl (c_store s) (c_anki_options s) (c_card_format_index s) (Some p) (c_name_input s)
    (c_tabs s) (c_delete_disabled s) (c_remove_modal_visible s) (c_remove_modal_index s)
    (c_remove_name s) (c_maximum_modal s).
Definition set_name_input (e : input_el) (s : ctrl) : ctrl :=
  mk_ctrl (c_store s) (c_anki_options s) (c_card_format_index s) (c_primary s) e
    (c_tabs s) (c_delete_disabled s) (c_remove_modal_visible s) (c_remove_modal_index s)
    (c_remove_name s) (c_maximum_modal s).
Definition set_tabs (ts : list tab) (s : ctrl) : ctrl :=
  mk_ctrl (c_store s) (c_anki_options s) (c_card_format_index s) (c_primary s)
    (c_name_input s) ts (c_delete_disabled s) (c_remove_modal_visible s)
    (c_remove_modal_index s) (c_remove_name s) (c_maximum_modal s).
Definition set_delete_disabled (b : bool) (s : ctrl) : ctrl :=
  mk_ctrl (c_store s) (c_anki_options s) (c_card_format_index s) (c_primary s)
    (c_name_input s) (c_tabs s) b (c_remove_modal_visible s) (c_remove_modal_index s)
    (c_remove_name s) (c_maximum_modal s).
Definition set_remove_modal (visible : bool) (idx : option string) (s : ctrl) : ctrl :=
  mk_ctrl (c_store s) (c_anki_options s) (c_card_format_index s) (c_primary s)
    (c_name_input s) (c_tabs s) (c_delete_disabled s) visible idx
    (c_remove_name s) (c_maximum_modal s).
Definition set_remove_name (n : string) (s : ctrl) : ctrl :=
  mk_ctrl (c_store s) (c_anki_options s) (c_card_format_index s) (c_primary s)
    (c_name_input s) (c_tabs s) (c_delete_disabled s) (c_remove_modal_visible s)
    (c_remove_modal_index s) n (c_maximum_modal s).
Definition set_maximum_modal (m : option bool) (s : ctrl) : ctrl :=
  mk_ctrl (c_store s) (c_anki_options s) (c_card_format_index s) (c_primary s)
    (c_name_input s) (c_tabs s) (c_delete_disabled s) (c_remove_modal_visible s)
    (c_remove_modal_index s) (c_remove_name s) m.
Definition set_store (l : list card_format) (s : ctrl) : ctrl :=
  mk_ctrl l (c_anki_options s) (c_card_format_index s) (c_primary s)
    (c_name_input s) (c_tabs s) (c_delete_disabled s) (c_remove_modal_visible s)
    (c_remove_modal_index s) (c_remove_name s) (c_maximum_modal s).
Definition set_anki_options (o : option (list card_format)) (s : ctrl) : ctrl :=
  mk_ctrl (c_store s) o (c_card_format_index s) (c_primary s)
    (c_name_input s) (c_tabs s) (c_delete_disabled s) (c_remove_modal_visible s)
    (c_remove_modal_index s) (c_remove_name s) (c_maximum_modal s).

(** [array[i]] for an integral [i] ([undefined] is [None]). *)
Definition js_index {X} (l : list X) (i : Z) : option X :=
  if i <? 0 then None else nth_error l (Z.to_nat i).

(** [Array.prototype.splice(start, deleteCount, ...items)] with
    [0 <= start]. *)
Definition splice {X} (l : list X) (start delete_count : nat) (items : list X) : list X :=
  firstn start l ++ items ++ skipn (start + delete_count) l.

Definition format_path (i : Z) (leaf : string) : list path_key :=
  [PStr "anki"; PStr "cardFormats"; PNum i; PStr leaf].

Definition set_setting (path : list path_key) (e : input_el) : input_el :=
  mk_input_el (Some path) (el_icon e).

(** [_setCardFormatIndex(cardFormatIndex, ankiCardMenu)] *)
Definition set_card_format_index (i : Z) (menu : option string) : M unit :=
  modify (set_index i) ;;;
  s <- get_st ;;
  match c_primary s with
  | None => throw "Anki card primary element not found"
  | Some p =>
      let p := mk_panel (Some (number_to_string i)) menu (pn_type_select p)
                 (pn_icon_select p) (pn_deck_input p) (pn_model_input p) in
      modify (set_primary p) ;;;
      modify (set_name_input (set_setting (format_path i "name") (c_name_input s))) ;;;
      type_select <- query_not_null (pn_type_select p) ;;
      let p := mk_panel (pn_card_format_index p) (pn_anki_card_menu p)
                 (Some (set_setting (format_path i "type") type_select))
                 (pn_icon_select p) (pn_deck_input p) (pn_model_input p) in
      modify (set_primary p) ;;;
      icon_select <- query_not_null (pn_icon_select p) ;;
      let icon :=
        match c_anki_options s with
        | Some l => match js_index l i with Some cf => cf_icon cf | None => "big-circle" end
        | None => "big-circle"
        end in
      let p := mk_panel (pn_card_format_index p) (pn_anki_card_menu p) (pn_type_select p)
                 (Some (mk_input_el (Some (format_path i "icon")) (Some icon)))
                 (pn_deck_input p) (pn_model_input p) in
      modify (set_primary p) ;;;
      deck_input <- query_not_null (pn_deck_input p) ;;
      let p := mk_panel (pn_card_format_index p) (pn_anki_card_menu p) (pn_type_select p)
                 (pn_icon_select p) (Some (set_setting (format_path i "deck") deck_input))
                 (pn_model_input p) in
      modify (set_primary p) ;;;
      model_input <- query_not_null (pn_model_input p) ;;
      let p := mk_panel (pn_card_format_index p) (pn_anki_card_menu p) (pn_type_select p)
                 (pn_icon_select p) (pn_deck_input p)
                 (Some (set_setting (format_path i "model") model_input)) in
      modify (set_primary p)
  end.

(** [_createCardFormatTab(cardFormat, i)], with [input.checked] as set by
    [_setupTabs]. *)
Definition make_tab (cursor : Z) (i : nat) (cf : card_format) : tab :=
  mk_tab (cf_type cf) (number_to_string (Z.of_nat i))
    ("anki-card-" ++ cf_type cf ++ "-field-menu")%string (cf_name cf)
    (Z.of_nat i =? cursor).

Fixpoint make_tabs (cursor : Z) (i : nat) (l : list card_format) : list tab :=
  match l with
  | [] => []
  | cf :: r => make_tab cursor i cf :: make_tabs cursor (S i) r
  end.

(** The two clamps at the start of [_setupTabs]. *)
Definition clamp_index (len : Z) (i : Z) : Z :=
  let i := if len <? i then len - 1 else i in
  if i <? 0 then 0 else i.

(** [_setupTabs(ankiOptions)] *)
Definition setup_tabs (formats : list card_format) : M unit :=
  modify (set_tabs []) ;;;
  s <- get_st ;;
  let len := Z.of_nat (length formats) in
  let i := clamp_index len (c_card_format_index s) in
  modify (set_index i) ;;;
  modify (set_tabs (make_tabs i 0 formats)) ;;;
  modify (set_delete_disabled (len <=? 1)) ;;;
  set_card_format_index i (Some "anki-card-term-field-menu").

(** [_updateOptions] / [_onOptionsChanged], restricted to [anki.cardFormats]:
    [this._ankiOptions = anki; this._setupTabs(anki)]. *)
Definition update_options : M unit :=
  s <- get_st ;;
  modify (set_anki_options (Some (c_store s))) ;;;
  setup_tabs (c_store s).

(** The [newCardFormat] literal of [_addNewFormat]. *)
Definition default_card_format (index : nat) : card_format :=
  mk_card_format ("Format " ++ number_to_string (Z.of_nat index + 1))%string "term" "" "" [] "big-circle".

(** [_addNewFormat] *)
Definition add_new_format : M unit :=
  s <- get_st ;;
  let index := length (c_store s) in
  if (5 <=? index)%nat then
    modify (set_maximum_modal (option_map (fun _ => true) (c_maximum_modal s)))
  else
    modify (set_store (splice (c_store s) index 0 [default_card_format index])) ;;;
    update_options.

(** [_getCardFormat(cardFormatIndex)] *)
Definition get_card_format (s : ctrl) (i : Z) : option card_format :=
  match c_anki_options s with
  | None => None
  | Some l => if (i <? 0) || (Z.of_nat (length l) <=? i) then None else js_index l i
  end.

(** [openDeleteCardFormatModal(cardFormatIndex)] *)
Definition open_delete_card_format_modal (i : Z) : M unit :=
  s <- get_st ;;
  match get_card_format s i with
  | None => ret tt
  | Some cf =>
      modify (set_remove_name (cf_name cf)) ;;;
      modify (set_remove_modal true (Some (number_to_string i)))
  end.

(** [_onCardFormatDeleteClick] *)
Definition on_card_format_delete_click : M unit :=
  s <- get_st ;;
  match c_anki_options s with
  | Some l => if (length l =? 1)%nat then ret tt
              else open_delete_card_format_modal (c_card_format_index s)
  | None => open_delete_card_format_modal (c_card_format_index s)
  end.

(** [_tryGetValidCardFormatIndex(stringValue)] *)
Definition try_get_valid_card_format_index (s : ctrl) (v : option string) : option Z :=
  match v with
  | None => None
  | Some str =>
      let int_value := parse_int str in
      match c_anki_options s with
      | None => None
      | Some l =>
          match int_value with
          | Some n => if (0 <=? n) && (n <? Z.of_nat (length l)) then Some n else None
          | None => None
          end
      end
  end.

(** [deleteCardFormat(cardFormatIndex)] *)
Definition delete_card_format (i : Z) : M unit :=
  s <- get_st ;;
  match c_anki_options s with
  | None => ret tt
  | Some l =>
      if (i <? 0) || (Z.of_nat (length l) <=? i) then ret tt
      else
        modify (set_store (splice (c_store s) (Z.to_nat i) 1 [])) ;;;
        modify (set_index (i - 1)) ;;;
        update_options
  end.

(** [_onCardFormatRemoveConfirm] *)
Definition on_card_format_remove_confirm : M unit :=
  s <- get_st ;;
  let idx := c_remove_modal_index s in
  modify (set_remove_modal false None) ;;;
  s' <- get_st ;;
  match try_get_valid_card_format_index s' idx with
  | None => ret tt
  | Some i => delete_card_format i
  end.

(** The user's delete action: the delete button, then the confirm button of
    the removal dialog when the dialog was opened. *)
Definition delete_format : M unit :=
  on_card_format_delete_click ;;;
  s <- get_st ;;
  if c_remove_modal_visible s then on_card_format_remove_confirm else ret tt.

End Anki.

(* ------------------------------------------------------------------------- *)
(** ** Default field value: [_getDefaultFieldValue] *)

Module Markers.
Import Js AnkiCard.

(** The map [markerAliases], built as [new Map(entries)] builds it: a
    repeated key keeps its first position and takes the last value. *)
Definition marker_aliases : obj (list string) :=
  of_entries [
    ("expression", ["phrase"; "term"; "word"]);
    ("reading", ["expression-reading"; "term-reading"; "word-reading"]);
    ("furigana", ["expression-furigana"; "term-furigana"; "word-furigana"]);
    ("glossary", ["definition"; "meaning"]);
    ("audio", ["sound"; "word-audio"; "term-audio"; "expression-audio"]);
    ("dictionary", ["dict"]);
    ("pitch-accents", ["pitch"; "pitch-accent"; "pitch-pattern"]);
    ("sentence", ["example-sentence"]);
    ("frequency-harmonic-rank", ["freq"; "frequency"; "freq-sort"; "freqency-sort"]);
    ("popup-selection-text", ["selection"]);
    ("pitch-accent-positions", ["pitch-position"]);
    ("pitch-accent-categories", ["pitch-categories"]);
    ("popup-selection-text", ["selection-text"])
  ].

(** One element of a pattern [^(?:n1|n2|...)$]: a literal character, or
    the [[-_ ]*] that replaces each hyphen of a name. Marker names and
    aliases are made of letters, digits and hyphens, so every other
    character is a literal. *)
Inductive atom := Lit (c : ascii) | SepRun.

Fixpoint name_atoms (name : string) : list atom :=
  match name with
  | EmptyString => []
  | String c r => (if Ascii.eqb c "-" then SepRun else Lit c) :: name_atoms r
  end.

(** Canonicalize of the ['i'] flag on 8-bit characters: only ASCII letters
    fold (a non-ASCII character never folds to an ASCII one). *)
Definition canon (c : ascii) : ascii :=
  let n := nat_of_ascii c in
  if (97 <=? n)%nat && (n <=? 122)%nat then ascii_of_nat (n - 32) else c.

Definition is_sep (c : ascii) : bool :=
  Ascii.eqb c "-" || Ascii.eqb c "_" || Ascii.eqb c " ".

(** Does the sequence match the whole string (up to [$])? *)
Fixpoint match_atoms (ps : list atom) (s : string) : bool :=
  match ps with
  | [] => match s with EmptyString => true | _ => false end
  | Lit c :: ps' =>
      match s with
      | String d s' => Ascii.eqb (canon c) (canon d) && match_atoms ps' s'
      | EmptyString => false
      end
  | SepRun :: ps' =>
      (fix run (s : string) : bool :=
         match_atoms ps' s ||
         match s with
         | String d s' => is_sep d && run s'
         | EmptyString => false
         end) s
  end.

(** [new RegExp('^(?:' + names.map(n => n.replace(/-/g, '[-_ ]*')).join('|') + ')$', 'i').test(fieldName)] *)
Definition pattern_test (names : list string) (field_name : string) : bool :=
  existsb (fun n => match_atoms (name_atoms n) field_name) names.

Definition marker_names (marker : string) : list string :=
  marker :: match get marker_aliases marker with Some a => a | None => [] end.

Fixpoint first_marker (markers : list string) (field_name : string) : string :=
  match markers with
  | [] => ""
  | m :: r => if pattern_test (marker_names m) field_name then ("{" ++ m ++ "}")%string
              else first_marker r field_name
  end.

(** [_getDefaultFieldValue(fieldName, index, dictionaryEntryType, oldFields)];
    [standard_markers] is [getStandardFieldMarkers]. *)
Definition get_default_field_value (standard_markers : string -> list string)
    (field_name : string) (index : Z) (entry_type : string)
    (old_fields : option anki_fields) : string :=
  match match old_fields with
        | Some o => if has_own o field_name then get o field_name else None
        | None => None
        end with
  | Some f => af_value f
  | None =>
      if index =? 0 then (if String.eqb entry_type "kanji" then "{character}" else "{expression}")
      else first_marker (standard_markers entry_type) field_name
  end.

(** Modelled from the spec: [getStandardFieldMarkers] of
    data/anki-template-util.js (not under src/), which the spec calls a
    fixed table of canonical marker names; this table lists the canonical
    names that the alias map of [_getDefaultFieldValue] names, in that
    map's order. *)
Definition standard_markers_modelled (entry_type : string) : list string :=
  ["expression"; "reading"; "furigana"; "glossary"; "audio"; "dictionary";
   "pitch-accents"; "sentence"; "frequency-harmonic-rank"; "popup-selection-text";
   "pitch-accent-positions"; "pitch-accent-categories"].

End Markers.

(* ------------------------------------------------------------------------- *)
(** ** Field row validation *)

Module Validate.

(** The field value input of a row: [value] and its dataset entries
    [requiredPermission], [hasPermissions], [invalid]. *)
Record field_input := mk_field_input {
  fi_value : string;
  fi_required_permission : option string;
  fi_has_permissions : option string;
  fi_invalid : option string
}.

Definition bool_to_string (b : bool) : string := if b then "true" else "false".

Definition opt_string_eqb (o : option string) (s : string) : bool :=
  match o with Some t => String.eqb t s | None => false end.

(** [_validateField(node, index)]; [contains_marker] is
    [stringContainsAnyFieldMarker]. *)
Definition validate_field (contains_marker : string -> bool)
    (node : field_input) (index : Z) : field_input :=
  let valid := negb (opt_string_eqb (fi_has_permissions node) "false") in
  let valid := if valid && (index =? 0) && negb (contains_marker (fi_value node))
               then false else valid in
  mk_field_input (fi_value node) (fi_required_permission node)
    (fi_has_permissions node) (Some (bool_to_string (negb valid))).

Fixpoint join_space (l : list string) : string :=
  match l with
  | [] => ""
  | [x] => x
  | x :: r => (x ++ " " ++ join_space r)%string
  end.

(** [_validateFieldPermissions(node, index, request)] once its permission
    query has settled: [required] is [getRequiredPermissions] and [granted]
    the answer of [hasPermissions] or [setPermissionsGranted]. *)
Definition validate_field_permissions (contains_marker : string -> bool)
    (required : string -> list string) (granted : list string -> bool)
    (node : field_input) (index : Z) : field_input :=
  let permissions := required (fi_value node) in
  let node :=
    match permissions with
    | _ :: _ =>
        mk_field_input (fi_value node) (Some (join_space permissions))
          (Some (bool_to_string (granted permissions))) (fi_invalid node)
    | [] => mk_field_input (fi_value node) None None (fi_invalid node)
    end in
  validate_field contains_marker node index.

End Validate.

(* ------------------------------------------------------------------------- *)
(** ** Remote errors: [_getDeckNames], [_getModelNames], [_getAnkiData] *)

Module AnkiErrors.

(** An [Error] object. *)
Record js_error := mk_error { err_name : string; err_message : string }.

(** [Error.prototype.toString] *)
Definition error_to_string (e : js_error) : string :=
  if String.eqb (err_name e) "" then err_message e
  else if String.eqb (err_message e) "" then err_name e
  else (err_name e ++ ": " ++ err_message e)%string.

(** The settled outcome of an async call. *)
Inductive outcome (X : Type) := Resolved (x : X) | Rejected (e : js_error).
Arguments Resolved {X}.
Arguments Rejected {X}.

(** Modelled from the spec: [toError] (core/to-error.js, not under src/);
    the remote note-API throws [Error] objects (spec section 6), which
    [toError] returns as they are. *)
Definition to_error (e : js_error) : js_error := e.

(** [_getDeckNames] / [_getModelNames]: [call] is the settled remote call,
    [sort] is [_sortStringArray]. *)
Definition get_names (sort : list string -> list string) (call : outcome (list string))
  : list string * option js_error :=
  match call with
  | Resolved result => (sort result, None)
  | Rejected e => ([], Some (to_error e))
  end.

(** [/[.!?]$/.test(s)] *)
Definition ends_in_punct (s : string) : bool :=
  match rev (list_ascii_of_string s) with
  | c :: _ => Ascii.eqb c "." || Ascii.eqb c "!" || Ascii.eqb c "?"
  | [] => false
  end.

(** The status area [#anki-error-message] and [_ankiError]. *)
Record status := mk_status {
  st_text : string;
  st_danger : bool;
  st_anki_error : option js_error
}.

(** [_showAnkiError(error)] *)
Definition show_anki_error (error : js_error) (s : status) : status :=
  let error_string := err_message error in
  let error_string := if String.eqb error_string "" then error_to_string error else error_string in
  let error_string := if ends_in_punct error_string then error_string else (error_string ++ ".")%string in
  mk_status error_string true (Some error).

(** [_hideAnkiError()] *)
Definition hide_anki_error (enabled : bool) (s : status) : status :=
  mk_status (if enabled then "Enabled" else "Not enabled") false None.

(** [_setAnkiStatusChanging()] *)
Definition set_anki_status_changing (default_content : string) (s : status) : status :=
  mk_status default_content false (st_anki_error s).

Record anki_data := mk_anki_data { deck_names : list string; model_names : list string }.

(** [_getAnkiData()]: the promise it returns, and the status area. *)
Definition get_anki_data (sort : list string -> list string) (default_content : string)
    (enabled : bool) (deck_call model_call : outcome (list string)) (s : status)
  : outcome anki_data * status :=
  let s := set_anki_status_changing default_content s in
  let '(deck_names, get_deck_names_error) := get_names sort deck_call in
  let '(model_names, get_model_names_error) := get_names sort model_call in
  let s :=
    match get_deck_names_error, get_model_names_error with
    | Some e, _ => show_anki_error e s
    | None, Some e => show_anki_error e s
    | None, None => hide_anki_error enabled s
    end in
  (Resolved (mk_anki_data deck_names model_names), s).

End AnkiErrors.

(* ------------------------------------------------------------------------- *)
(** ** The spec's reading of the marker match *)

Module MarkerSpec.

(** ASCII lower-casing, for "case-insensitive". *)
Definition ascii_lower (c : ascii) : ascii :=
  let n := nat_of_ascii c in
  if (65 <=? n)%nat && (n <=? 90)%nat then ascii_of_nat (n + 32) else c.

Fixpoint all_sep (r : string) : bool :=
  match r with
  | EmptyString => true
  | String d r' => Markers.is_sep d && all_sep r'
  end.

(** [relaxed name field]: [field] spells [name] up to case, each hyphen of
    [name] standing for any run (possibly empty) of hyphens, underscores and
    spaces. *)
Inductive relaxed : string -> string -> Prop :=
| rx_nil : relaxed EmptyString EmptyString
| rx_char c d n f :
    c <> "-"%char -> ascii_lower c = ascii_lower d -> relaxed n f ->
    relaxed (String c n) (String d f)
| rx_hyphen r n f :
    all_sep r = true -> relaxed n f -> relaxed (String "-" n) (r ++ f).

End MarkerSpec.

(* ------------------------------------------------------------------------- *)
(** ** Concrete states used by the examples *)

Module Fixtures.
Import Js AnkiCard Anki.

Definition f0 : anki_fields :=
  [("Front", mk_field "{expression}" "coalesce"); ("Back", mk_field "{glossary}" "coalesce");
   ("Field", mk_field "" "coalesce")].
Definition st0 : card_ctrl := setup_fields (mk_card_ctrl f0 [] 0 []).
Definition el0 : input_el := mk_input_el None None.
Definition pn0 : panel := mk_panel None None (Some el0) (Some el0) (Some el0) (Some el0).
Definition fmt (n : string) : card_format := mk_card_format n "term" "" "" [] "big-circle".
Definition s3 (cursor : Z) : ctrl :=
  mk_ctrl [fmt "A"; fmt "B"; fmt "C"] (Some [fmt "A"; fmt "B"; fmt "C"]) cursor (Some pn0) el0 []
    false false None "" (Some false).
(** The same list with no panel element. *)
Definition s3_no_panel (cursor : Z) : ctrl :=
  mk_ctrl [fmt "A"; fmt "B"; fmt "C"] (Some [fmt "A"; fmt "B"; fmt "C"]) cursor None el0 []
    false false None "" (Some false).
(** A single format, selected, its delete button disabled. *)
Definition s1 : ctrl :=
  mk_ctrl [fmt "A"] (Some [fmt "A"]) 0 (Some pn0) el0 [] true false None "" (Some false).

End Fixtures.

(* ------------------------------------------------------------------------- *)
(** ** Invariants the theorems assume *)

Module Predicates.
Import Js AnkiCard Anki.

(** Array-index keys come in ascending numeric order. *)
Definition idx_le {A : Type} (a b : string * A) : Prop := index_value (fst a) <= index_value (fst b).

(** The state [_setupFields] leaves: one row per own key of [_fields], in
    object order, and field names unique. *)
Definition card_ctrl_ok (st : card_ctrl) : Prop :=
  cc_field_entries st = keys (entries (cc_fields st)) /\ NoDup (keys (cc_fields st)).

Definition key_neq (k : string) (kv : string * anki_field) : bool :=
  negb (String.eqb k (fst kv)).

(** The object a successful rename stores. *)
Definition renamed (fields : anki_fields) (old new : string) (v : anki_field) : anki_fields :=
  entries (filter (key_neq old) (entries fields)) ++ [(new, v)].

(** The panel and all the children [_setCardFormatIndex] looks up exist. *)
Definition panel_ok (s : ctrl) : Prop :=
  exists p t i d m, c_primary s = Some p /\ pn_type_select p = Some t /\
    pn_icon_select p = Some i /\ pn_deck_input p = Some d /\ pn_model_input p = Some m.

(** The controller's snapshot [_ankiOptions] is the profile's list. *)
Definition synced (s : ctrl) : Prop := c_anki_options s = Some (c_store s).

End Predicates.

(* ------------------------------------------------------------------------- *)
(** ** More of [AnkiController]: icon, name and type inputs, options events *)

Module AnkiMore.
Import Js AnkiCard Anki.

(** [l[n] = x] for an index in range; out of range the list is unchanged. *)
Fixpoint replace_nth {X} (l : list X) (n : nat) (x : X) : list X :=
  match l, n with
  | [], _ => []
  | _ :: r, O => x :: r
  | y :: r, S n' => y :: replace_nth r n' x
  end.

(** [_onOptionsChanged({options})], restricted to [anki.cardFormats]:
    [this._ankiOptions = anki; this._setupTabs(anki)], where [formats] is the
    list the event carries. *)
Definition on_options_changed (formats : list card_format) : M unit :=
  modify (set_anki_options (Some formats)) ;;;
  setup_tabs formats.

Definition with_icon (cf : card_format) (icon : string) : card_format :=
  mk_card_format (cf_name cf) (cf_type cf) (cf_deck cf) (cf_model cf) (cf_fields cf) icon.

(** [_onIconSelectChange()]: [new_icon] is [iconSelect.value]. Reading a
    property of [null] (no icon select) or setting one on [undefined] (no
    format at the index) throws a [TypeError]. *)
Definition on_icon_select_change (new_icon : string) : M unit :=
  s <- get_st ;;
  match c_primary s with
  | None => throw "TypeError"
  | Some p =>
      match pn_icon_select p with
      | None => throw "TypeError"
      | Some e =>
          modify (set_primary
            (mk_panel (pn_card_format_index p) (pn_anki_card_menu p) (pn_type_select p)
               (Some (mk_input_el (el_setting e) (Some new_icon)))
               (pn_deck_input p) (pn_model_input p))) ;;;
          match c_anki_options s with
          | None => ret tt
          | Some l =>
              match js_index l (c_card_format_index s) with
              | None => throw "TypeError"
              | Some cf =>
                  modify (set_anki_options
                    (Some (replace_nth l (Z.to_nat (c_card_format_index s)) (with_icon cf new_icon))))
              end
          end
      end
  end.

Definition with_label (t : tab) (label : string) : tab :=
  mk_tab (tab_value t) (tab_card_format_index t) (tab_menu t) label (tab_checked t).

(** The [input] listener of the name input set up by [prepare()]:
    [querySelectorNotNull(tabs, `.tab:nth-child(${i + 1}) .tab-label`)]
    gets the label of tab [i] (each [anki-card-type-tab] fragment adds one
    [.tab] to the container, so tab [i] is its child [i + 1]); a selector
    [:nth-child(k)] with [k <= 0] matches nothing. *)
Definition on_name_input (value : string) : M unit :=
  s <- get_st ;;
  let i := c_card_format_index s in
  match js_index (c_tabs s) i with
  | None => throw "Element not found"
  | Some t =>
      let label := if String.eqb value "" then ("Format " ++ number_to_string (i + 1))%string
                   else value in
      modify (set_tabs (replace_nth (c_tabs s) (Z.to_nat i) (with_label t label)))
  end.

(** [_onDictionaryTypeSelectChange(e)]: [value] is the select's value. *)
Definition on_dictionary_type_select_change (value : string) : M unit :=
  s <- get_st ;;
  match c_primary s with
  | None => throw "TypeError"
  | Some p =>
      modify (set_primary
        (mk_panel (pn_card_format_index p) (Some ("anki-card-" ++ value ++ "-field-menu")%string)
           (pn_type_select p) (pn_icon_select p) (pn_deck_input p) (pn_model_input p)))
  end.

(** The state [getAnkiData()] keeps: [_getAnkiDataPromise], the cached
    promise of one [_getAnkiData()] fetch, given by the number of that fetch
    ([None] for [null]), and the count of fetches begun. *)
Record anki_data_memo := mk_memo {
  memo_pending : option nat;
  memo_fetches : nat
}.

(** A call of [getAnkiData()]: the fetch it waits on, and the new state.
    Being [async], each call returns a promise object of its own; that
    promise settles as the [_getAnkiData()] promise the call returns does, so
    the call is described by the number of that fetch, not by the object. *)
Definition get_anki_data_call (m : anki_data_memo) : nat * anki_data_memo :=
  match memo_pending m with
  | Some p => (p, m)
  | None => (memo_fetches m, mk_memo (Some (memo_fetches m)) (S (memo_fetches m)))
  end.

(** The [promise.finally(() => { this._getAnkiDataPromise = null; })]
    callback, run when the pending promise settles. *)
Definition settle_anki_data (m : anki_data_memo) : anki_data_memo :=
  mk_memo None (memo_fetches m).

(** [n] calls of [getAnkiData()] with no settlement in between: the fetches
    they wait on, in call order, and the final state. *)
Fixpoint get_anki_data_calls (n : nat) (m : anki_data_memo) : list nat * anki_data_memo :=
  match n with
  | O => ([], m)
  | S n' =>
      let '(p, m1) := get_anki_data_call m in
      let '(ps, m2) := get_anki_data_calls n' m1 in
      (p :: ps, m2)
  end.

End AnkiMore.

(* ------------------------------------------------------------------------- *)
(** ** More of [AnkiCardController]: construction, staleness, permissions *)

Module CardMore.
Import Js AnkiCard Anki Validate.

(** The constructor's state: [_cardFormatIndex] is
    [Number.parseInt(cardFormatIndex, 10)] ([None] is [NaN]), [_cardMenu] is
    [dataset.ankiCardMenu], and [_cleaned]. *)
Record card_head := mk_card_head {
  ch_card_format_index : option Z;
  ch_card_menu : option string;
  ch_cleaned : bool
}.

(** [new AnkiCardController(settingsController, ankiController, node)] for a
    node whose dataset has [cardFormatIndex] [ds_index] and [ankiCardMenu]
    [ds_menu]; [inl] is the thrown error's message. *)
Definition new_card_controller (ds_index ds_menu : option string) : string + card_head :=
  match ds_index with
  | None => inl "Undefined anki card type in node dataset"
  | Some str => inr (mk_card_head (parse_int str) ds_menu false)
  end.

(** [a !== b] on numbers, [NaN] being [None]. *)
Definition num_neqb (a b : option Z) : bool :=
  match a, b with
  | Some x, Some y => negb (x =? y)
  | _, _ => true
  end.

(** [a !== b] on [string|undefined]. *)
Definition opt_str_neqb (a b : option string) : bool :=
  match a, b with
  | Some x, Some y => negb (String.eqb x y)
  | None, None => false
  | _, _ => true
  end.

(** [isStale()], the node's dataset being [ds_index] and [ds_menu]. *)
Definition is_stale (h : card_head) (ds_index ds_menu : option string) : bool :=
  match ds_index with
  | None => true
  | Some str =>
      num_neqb (ch_card_format_index h) (parse_int str) || opt_str_neqb (ch_card_menu h) ds_menu
  end.

(** [cleanup()], as far as [prepare()] sees it. *)
Definition cleanup (h : card_head) : card_head :=
  mk_card_head (ch_card_format_index h) (ch_card_menu h) true.

(** The outcome of [prepare()]: returned early, threw, or set the fields up. *)
Inductive prepared :=
| PrepareSkipped
| PrepareThrew (msg : string)
| Prepared (st : card_ctrl).

(** [prepare()] once [getOptions()] has given [formats], with
    [_getCardFormat(ankiOptions, cardFormatIndex)] inlined; [cardFormats[NaN]]
    is [undefined] like an index out of range. *)
Definition prepare (h : card_head) (formats : list card_format) : prepared :=
  if ch_cleaned h then PrepareSkipped
  else
    match ch_card_format_index h with
    | None => PrepareThrew "Invalid card format index"
    | Some i =>
        match js_index formats i with
        | None => PrepareThrew "Invalid card format index"
        | Some cf => Prepared (setup_fields (mk_card_ctrl (cf_fields cf) [] i []))
        end
    end.

(** [String.prototype.split(' ')]: the first word and the ones after it. *)
Fixpoint split_space_go (s : string) : string * list string :=
  match s with
  | EmptyString => (EmptyString, [])
  | String c r =>
      let '(w, ws) := split_space_go r in
      if Ascii.eqb c " " then (EmptyString, w :: ws) else (String c w, ws)
  end.

Definition split_space (s : string) : list string :=
  let '(w, ws) := split_space_go s in w :: ws.

(** The body of the loop of [_onPermissionsChanged] for row [i], [granted]
    being the [permissions] of the event. *)
Definition recheck_row (contains_marker : string -> bool) (granted : list string)
    (i : nat) (node : field_input) : field_input :=
  match fi_required_permission node with
  | None => node
  | Some required_permission =>
      let required :=
        if String.eqb required_permission "" then [] else split_space required_permission in
      let has := forallb (fun p => existsb (String.eqb p) granted) required in
      validate_field contains_marker
        (mk_field_input (fi_value node) (fi_required_permission node)
           (Some (bool_to_string has)) (fi_invalid node))
        (Z.of_nat i)
  end.

Fixpoint recheck_rows (contains_marker : string -> bool) (granted : list string)
    (i : nat) (rows : list field_input) : list field_input :=
  match rows with
  | [] => []
  | r :: rs => recheck_row contains_marker granted i r :: recheck_rows contains_marker granted (S i) rs
  end.

(** [_onPermissionsChanged({permissions: {permissions}})] over the value
    inputs of [_fieldEntries]. *)
Definition on_permissions_changed (contains_marker : string -> bool) (granted : list string)
    (rows : list field_input) : list field_input :=
  recheck_rows contains_marker granted 0 rows.

End CardMore.

Module FieldNameCase.

(** ASCII lower-casing of a field name, to state what the ['i'] flag of
    the marker patterns makes no difference to. *)
Fixpoint lower_string (s : string) : string :=
  match s with
  | EmptyString => EmptyString
  | String c r => String (MarkerSpec.ascii_lower c) (lower_string r)
  end.

End FieldNameCase.

(* ------------------------------------------------------------------------- *)
(** ** The controller's lifetime: construction, then the events it handles *)

Module Lifecycle.
Import Js AnkiCard Anki AnkiMore.

(** [new AnkiController(...)] on a page whose state is [dom]:
    [this._ankiCardPrimary = querySelectorNotNull(document, '#anki-card-primary')]
    throws when the page has no such element; then [_ankiOptions = null],
    [_cardFormatIndex = 0] and [_cardFormatMaximumModal = null]. The other
    [querySelectorNotNull] lookups of the constructor concern elements this
    state does not hold; they can only make the constructor throw too. *)
Definition new_anki_controller (dom : ctrl) : string + ctrl :=
  match c_primary dom with
  | None => inl "Element not found"
  | Some _ => inr (set_maximum_modal None (set_index 0 (set_anki_options None dom)))
  end.

(** What runs on a constructed controller: the listeners [prepare()]
    installs, the [getModal] assignment of the maximum dialog, the public
    [deleteCardFormat] and [openDeleteCardFormatModal], and changes of the
    profile's [anki.cardFormats] made elsewhere in the settings page. *)
Inductive anki_event :=
| EvUpdateOptions
| EvOptionsChanged (formats : list card_format)
| EvStoreChanged (formats : list card_format)
| EvMaximumModal (m : option bool)
| EvSetCardFormatIndex (i : Z) (menu : option string)
| EvNewFormat
| EvDeleteClick
| EvOpenDeleteModal (i : Z)
| EvRemoveConfirm
| EvDeleteCardFormat (i : Z)
| EvIconChange (value : string)
| EvNameInput (value : string)
| EvTypeChange (value : string).

Definition run_event (e : anki_event) : M unit :=
  match e with
  | EvUpdateOptions => update_options
  | EvOptionsChanged l => on_options_changed l
  | EvStoreChanged l => modify (set_store l)
  | EvMaximumModal m => modify (set_maximum_modal m)
  | EvSetCardFormatIndex i menu => set_card_format_index i menu
  | EvNewFormat => add_new_format
  | EvDeleteClick => on_card_format_delete_click
  | EvOpenDeleteModal i => open_delete_card_format_modal i
  | EvRemoveConfirm => on_card_format_remove_confirm
  | EvDeleteCardFormat i => delete_card_format i
  | EvIconChange v => on_icon_select_change v
  | EvNameInput v => on_name_input v
  | EvTypeChange v => on_dictionary_type_select_change v
  end.

(** The states of a controller: a constructed one, and what any event
    leaves behind, whether it returns or throws. *)
Inductive reachable : ctrl -> Prop :=
| reach_new (dom s : ctrl) : new_anki_controller dom = inr s -> reachable s
| reach_event (s : ctrl) (e : anki_event) : reachable s -> reachable (state_of (run_event e s)).

(** [m] leaves a panel element in place when there was one, whether it
    returns or throws. *)
Definition keeps_primary {A} (m : M A) : Prop :=
  forall s, c_primary s <> None -> c_primary (state_of (m s)) <> None.

(** The events of [es] in turn; an event that throws does not stop the next. *)
Fixpoint run_events (es : list anki_event) (s : ctrl) : ctrl :=
  match es with
  | [] => s
  | e :: r => run_events r (state_of (run_event e s))
  end.

(** A controller constructed on the page [Fixtures.s3 7] (three formats),
    after loading its options and adding a format. *)
Definition started : ctrl :=
  run_events [EvUpdateOptions; EvNewFormat]
    (set_maximum_modal None (set_index 0 (set_anki_options None (Fixtures.s3 7)))).

End Lifecycle.

(* ========================================================================= *)
(** * Properties *)

From Stdlib Require Import Sorting.Sorted Vectors.FinFun.

Module ObjFacts.
Import Js Predicates.

Section Facts.
Context {A : Type}.


Lemma insert_index_perm (kv : string * A) l : Permutation (insert_index kv l) (kv :: l).
Proof.
  induction l as [|y l IH]; simpl; [reflexivity|].
  destruct (_ <=? _); [reflexivity|].
  rewrite IH. apply perm_swap.
Qed.

Lemma sort_index_perm (l : obj A) : Permutation (sort_index l) l.
Proof.
  induction l as [|x l IH]; simpl; [reflexivity|].
  rewrite insert_index_perm. now constructor.
Qed.

Lemma insert_index_sorted (kv : string * A) l :
  Sorted idx_le l -> Sorted idx_le (insert_index kv l).
Proof.
  induction 1 as [|y l Hs IH Hd]; simpl.
  - repeat constructor.
  - destruct (index_value (fst kv) <=? index_value (fst y)) eqn:E.
    + constructor; [now constructor|]. constructor. unfold idx_le. lia.
    + constructor; [exact IH|].
      apply Z.leb_gt in E.
      destruct l as [|z l]; simpl.
      * constructor. unfold idx_le. lia.
      * destruct (index_value (fst kv) <=? index_value (fst z)).
        -- constructor. unfold idx_le. lia.
        -- inversion Hd; subst. now constructor.
Qed.

Lemma sort_index_sorted (l : obj A) : Sorted idx_le (sort_index l).
Proof.
  induction l; simpl; [constructor|]. now apply insert_index_sorted.
Qed.

Lemma idx_le_trans : Relations_1.Transitive (@idx_le A).
Proof. intros a b c; unfold idx_le; lia. Qed.

Lemma insert_index_head (kv : string * A) l :
  Forall (idx_le kv) l -> insert_index kv l = kv :: l.
Proof.
  destruct l as [|y l]; simpl; [reflexivity|].
  intros H. inversion H; subst. unfold idx_le in *.
  destruct (Z.leb_spec (index_value (fst kv)) (index_value (fst y))); [reflexivity|lia].
Qed.

Lemma insert_index_filter (q : string * A -> bool) kv l :
  Sorted idx_le l ->
  filter q (insert_index kv l) =
  if q kv then insert_index kv (filter q l) else filter q l.
Proof.
  induction l as [|y l IH]; intros Hs; simpl.
  - destruct (q kv); reflexivity.
  - pose proof (Sorted_extends idx_le_trans Hs) as Hall.
    apply Sorted_inv in Hs as [Hs _].
    destruct (index_value (fst kv) <=? index_value (fst y)) eqn:E.
    + pose proof E as E'. apply Z.leb_le in E'. simpl.
      destruct (q kv) eqn:Qk; [|reflexivity].
      destruct (q y) eqn:Qy; simpl.
      * now rewrite E.
      * symmetry. apply insert_index_head.
        rewrite Forall_forall in Hall |- *. intros z Hz.
        apply filter_In in Hz as [Hz _]. specialize (Hall z Hz).
        unfold idx_le in *. lia.
    + simpl. rewrite IH by exact Hs.
      destruct (q kv), (q y); simpl; try reflexivity. now rewrite E.
Qed.

Lemma sort_index_filter (q : string * A -> bool) (l : obj A) :
  sort_index (filter q l) = filter q (sort_index l).
Proof.
  induction l as [|x l IH]; simpl; [reflexivity|].
  rewrite insert_index_filter by apply sort_index_sorted.
  destruct (q x); simpl; now rewrite IH.
Qed.

Lemma sort_index_sorted_id (l : obj A) : Sorted idx_le l -> sort_index l = l.
Proof.
  induction l as [|x l IH]; intros Hs; simpl; [reflexivity|].
  pose proof (Sorted_extends idx_le_trans Hs) as Hall.
  apply Sorted_inv in Hs as [Hs _].
  rewrite IH by exact Hs. now apply insert_index_head.
Qed.

Lemma filter_comm (p q : string * A -> bool) (l : obj A) :
  filter p (filter q l) = filter q (filter p l).
Proof.
  induction l as [|x l IH]; simpl; [reflexivity|].
  destruct (p x) eqn:P, (q x) eqn:Q; simpl; rewrite ?P, ?Q, IH; reflexivity.
Qed.

Lemma filter_idem (p : string * A -> bool) (l : obj A) : filter p (filter p l) = filter p l.
Proof.
  induction l as [|x l IH]; simpl; [reflexivity|].
  destruct (p x) eqn:P; simpl; rewrite ?P, IH; reflexivity.
Qed.

Lemma filter_none (p q : string * A -> bool) (l : obj A) :
  (forall x, q x = true -> p x = false) -> filter p (filter q l) = [].
Proof.
  intros H. induction l as [|x l IH]; simpl; [reflexivity|].
  destruct (q x) eqn:Q; simpl; [rewrite (H x Q)|]; exact IH.
Qed.

Lemma filter_split_perm (p : string * A -> bool) (l : obj A) :
  Permutation (filter p l ++ filter (fun x => negb (p x)) l) l.
Proof.
  induction l as [|x l IH]; simpl; [reflexivity|].
  destruct (p x); simpl.
  - now constructor.
  - rewrite <- Permutation_middle. now constructor.
Qed.

Lemma entries_perm (o : obj A) : Permutation (entries o) o.
Proof.
  unfold entries. rewrite sort_index_perm. apply filter_split_perm.
Qed.

Lemma entries_filter (p : string * A -> bool) (o : obj A) :
  filter p (entries o) = entries (filter p o).
Proof.
  unfold entries. rewrite filter_app, <- sort_index_filter.
  now rewrite (filter_comm p is_index_entry), (filter_comm p (fun kv => negb _)).
Qed.

Lemma entries_idem (o : obj A) : entries (entries o) = entries o.
Proof.
  unfold entries at 1 2. rewrite !filter_app.
  rewrite <- !sort_index_filter, !filter_idem.
  rewrite (filter_none is_index_entry (fun kv => negb (is_index_entry kv)))
    by (intros x Hx; now destruct (is_index_entry x)).
  rewrite (filter_none (fun kv => negb (is_index_entry kv)) is_index_entry)
    by (intros x Hx; now rewrite Hx).
  rewrite !app_nil_r. simpl. rewrite sort_index_sorted_id by apply sort_index_sorted.
  reflexivity.
Qed.

Lemma has_own_keys (o : obj A) k : has_own o k = true <-> In k (keys o).
Proof.
  unfold has_own, keys. rewrite existsb_exists, in_map_iff. split.
  - intros [kv [Hin Heq]]. apply String.eqb_eq in Heq. now exists kv.
  - intros [kv [Heq Hin]]. exists kv. split; [exact Hin|]. apply String.eqb_eq. now symmetry.
Qed.

Lemma keys_app (o1 o2 : obj A) : keys (o1 ++ o2) = keys o1 ++ keys o2.
Proof. apply map_app. Qed.

Lemma of_entries_acc (l acc : obj A) :
  NoDup (keys (acc ++ l)) ->
  fold_left (fun acc kv => define acc (fst kv) (snd kv)) l acc = acc ++ l.
Proof.
  revert acc. induction l as [|[k v] l IH]; intros acc Hnd; simpl.
  - now rewrite app_nil_r.
  - unfold define at 2.
    assert (Hk : has_own acc k = false).
    { destruct (has_own acc k) eqn:E; [|reflexivity].
      apply has_own_keys in E. rewrite keys_app in Hnd. simpl in Hnd.
      apply NoDup_remove_2 in Hnd. exfalso. apply Hnd. apply in_or_app. now left. }
    rewrite Hk. rewrite IH; [now rewrite <- app_assoc|].
    now rewrite <- app_assoc.
Qed.

Lemma of_entries_id (l : obj A) : NoDup (keys l) -> of_entries l = l.
Proof. intros H. unfold of_entries. now rewrite of_entries_acc. Qed.

Lemma get_In (o : obj A) k v : get o k = Some v -> In (k, v) o.
Proof.
  induction o as [|[k' v'] o IH]; simpl; [discriminate|].
  destruct (String.eqb_spec k k'); intros H.
  - inversion H; subst. now left.
  - right. now apply IH.
Qed.

Lemma In_get (o : obj A) k v : NoDup (keys o) -> In (k, v) o -> get o k = Some v.
Proof.
  induction o as [|[k' v'] o IH]; simpl; [contradiction|].
  intros Hnd Hin. inversion Hnd as [|? ? Hnotin Hnd']; subst.
  destruct (String.eqb_spec k k') as [->|Hne].
  - destruct Hin as [Heq|Hin]; [now inversion Heq|].
    exfalso. apply Hnotin. apply in_map_iff. now exists (k', v).
  - destruct Hin as [Heq|Hin]; [inversion Heq; congruence|]. now apply IH.
Qed.

Lemma keys_perm (o1 o2 : obj A) : Permutation o1 o2 -> Permutation (keys o1) (keys o2).
Proof. apply Permutation_map. Qed.

Lemma get_perm (o1 o2 : obj A) k :
  NoDup (keys o1) -> Permutation o1 o2 -> get o1 k = get o2 k.
Proof.
  intros Hnd Hp.
  assert (Hnd2 : NoDup (keys o2)) by (eapply Permutation_NoDup; [apply keys_perm, Hp|exact Hnd]).
  destruct (get o1 k) as [v|] eqn:E1.
  - symmetry. apply In_get; [exact Hnd2|]. eapply Permutation_in; [exact Hp|]. now apply get_In.
  - destruct (get o2 k) as [v|] eqn:E2; [|reflexivity].
    apply get_In in E2. apply (Permutation_in _ (Permutation_sym Hp)) in E2.
    apply (In_get _ _ _ Hnd) in E2. congruence.
Qed.

Lemma get_app_new (o : obj A) k v k' :
  get (o ++ [(k, v)]) k' = if String.eqb k' k then
                             match get o k' with Some w => Some w | None => Some v end
                           else get o k'.
Proof.
  induction o as [|[k1 v1] o IH]; simpl.
  - destruct (String.eqb k' k); reflexivity.
  - destruct (String.eqb k' k1) eqn:E1; [|exact IH].
    destruct (String.eqb k' k); reflexivity.
Qed.

Lemma get_notin (o : obj A) k : ~ In k (keys o) -> get o k = None.
Proof.
  intros H. destruct (get o k) eqn:E; [|reflexivity].
  exfalso. apply H. apply get_In in E. apply in_map_iff. now exists (k, a).
Qed.

Lemma get_filter_neq (o : obj A) k k' :
  get (filter (fun kv => negb (String.eqb k (fst kv))) o) k' =
  if String.eqb k' k then None else get o k'.
Proof.
  induction o as [|[k1 v1] o IH]; simpl.
  - now destruct (String.eqb k' k).
  - destruct (String.eqb_spec k k1) as [->|Hne]; simpl.
    + rewrite IH. destruct (String.eqb_spec k' k1); reflexivity.
    + destruct (String.eqb_spec k' k1) as [->|Hne']; simpl.
      * destruct (String.eqb_spec k1 k); [congruence|]. reflexivity.
      * exact IH.
Qed.

Lemma keys_filter_incl (p : string * A -> bool) (o : obj A) k :
  In k (keys (filter p o)) -> In k (keys o).
Proof.
  unfold keys. rewrite !in_map_iff. intros [x [Hx Hin]].
  apply filter_In in Hin. exists x. tauto.
Qed.

Lemma NoDup_keys_filter (p : string * A -> bool) (o : obj A) :
  NoDup (keys o) -> NoDup (keys (filter p o)).
Proof.
  induction o as [|x o IH]; simpl; intros Hnd; [constructor|].
  inversion Hnd; subst. destruct (p x); simpl; [|now apply IH].
  constructor; [|now apply IH].
  intros Hin. apply keys_filter_incl in Hin. contradiction.
Qed.

Lemma NoDup_keys_entries (o : obj A) : NoDup (keys o) -> NoDup (keys (entries o)).
Proof.
  intros H. eapply Permutation_NoDup; [|exact H].
  apply keys_perm. symmetry. apply entries_perm.
Qed.

End Facts.
End ObjFacts.

Module NumFacts.
Import Js Predicates.

Lemma digit_prefix_uint (d : Decimal.uint) :
  digit_prefix (NilEmpty.string_of_uint d) = NilEmpty.string_of_uint d.
Proof. induction d; simpl; rewrite ?IHd; reflexivity. Qed.

Lemma number_to_string_pos (p : positive) :
  exists d, number_to_string (Zpos p) = NilEmpty.string_of_uint d /\
            d <> Decimal.Nil /\ Z.of_uint d = Zpos p.
Proof.
  exists (Pos.to_uint p).
  assert (Hv : Z.of_uint (Pos.to_uint p) = Zpos p).
  { pose proof (DecimalZ.of_to (Zpos p)) as H. simpl in H. exact H. }
  assert (Hn : Pos.to_uint p <> Decimal.Nil) by (intros E; rewrite E in Hv; discriminate).
  split; [|split; assumption].
  unfold number_to_string. simpl.
  destruct (Pos.to_uint p); [contradiction|reflexivity..].
Qed.

Lemma parse_int_number_to_string (z : Z) : 0 <= z -> parse_int (number_to_string z) = Some z.
Proof.
  intros Hz. destruct z as [|p|p]; [reflexivity| |lia].
  destruct (number_to_string_pos p) as [d [Hs [Hn Hv]]]. rewrite Hs.
  unfold parse_int.
  destruct d; [contradiction|..]; simpl; rewrite digit_prefix_uint, NilEmpty.usu;
    rewrite <- Hv; reflexivity.
Qed.

Lemma number_to_string_inj (a b : Z) :
  0 <= a -> 0 <= b -> number_to_string a = number_to_string b -> a = b.
Proof.
  intros Ha Hb E.
  pose proof (parse_int_number_to_string a Ha) as Pa.
  pose proof (parse_int_number_to_string b Hb) as Pb.
  rewrite E in Pa. congruence.
Qed.

End NumFacts.

Module CardFacts.
Import Js AnkiCard ObjFacts NumFacts Predicates.


Lemma NoDup_snoc {X} (l : list X) x : NoDup l -> ~ In x l -> NoDup (l ++ [x]).
Proof.
  intros H Hx. eapply Permutation_NoDup; [apply Permutation_cons_append|].
  now constructor.
Qed.

Lemma filter_filter_implied {X} (p q : X -> bool) (l : list X) :
  (forall x, p x = true -> q x = true) -> filter p (filter q l) = filter p l.
Proof.
  intros H. induction l as [|x l IH]; simpl; [reflexivity|].
  destruct (q x) eqn:Q; simpl.
  - now rewrite IH.
  - destruct (p x) eqn:P; [now rewrite (H x P) in Q|exact IH].
Qed.

Lemma spread_with_new (o : anki_fields) k v :
  NoDup (keys o) -> has_own o k = false -> spread_with o k v = entries o ++ [(k, v)].
Proof.
  intros Hnd Hk. unfold spread_with.
  rewrite of_entries_id by now apply NoDup_keys_entries.
  unfold define.
  replace (has_own (entries o) k) with false; [reflexivity|].
  symmetry. destruct (has_own (entries o) k) eqn:E; [|reflexivity].
  apply has_own_keys in E. rewrite <- Hk. symmetry. apply has_own_keys.
  eapply Permutation_in; [apply keys_perm, entries_perm|exact E].
Qed.

Lemma rest_without_eq (o : anki_fields) k :
  NoDup (keys o) -> rest_without o k = filter (key_neq k) (entries o).
Proof.
  intros Hnd. unfold rest_without. apply of_entries_id.
  apply NoDup_keys_filter, NoDup_keys_entries, Hnd.
Qed.

Lemma has_own_entries (o : anki_fields) k : has_own (entries o) k = has_own o k.
Proof.
  destruct (has_own o k) eqn:E.
  - apply has_own_keys. apply has_own_keys in E.
    eapply Permutation_in; [apply keys_perm; symmetry; apply entries_perm|exact E].
  - destruct (has_own (entries o) k) eqn:E'; [|reflexivity].
    apply has_own_keys in E'. rewrite <- E. symmetry. apply has_own_keys.
    eapply Permutation_in; [apply keys_perm, entries_perm|exact E'].
Qed.

Lemma has_own_filter (p : string * anki_field -> bool) (o : anki_fields) k :
  has_own (filter p o) k = true -> has_own o k = true.
Proof. rewrite !has_own_keys. apply keys_filter_incl. Qed.


Lemma blur_success (st : card_ctrl) index v old :
  card_ctrl_ok st ->
  nth_error (cc_field_entries st) index = Some old ->
  trim v <> old -> trim v <> "" -> has_own (cc_fields st) (trim v) = false ->
  exists f, get (cc_fields st) old = Some f /\
    on_field_name_blur st index v =
      (store_fields st (renamed (cc_fields st) old (trim v) f), v).
Proof.
  intros [He Hnd] Hn Hne Hempty Hown.
  assert (Hin : In old (keys (cc_fields st))).
  { rewrite He in Hn. apply nth_error_In in Hn.
    eapply Permutation_in; [apply keys_perm, entries_perm|exact Hn]. }
  unfold keys in Hin. apply in_map_iff in Hin as [[k f] [Hk Hinf]]. simpl in Hk; subst k.
  exists f. pose proof (In_get _ _ _ Hnd Hinf) as Hg. split; [exact Hg|].
  unfold on_field_name_blur. rewrite Hn.
  destruct (String.eqb_spec (trim v) old); [contradiction|].
  destruct (String.eqb_spec (trim v) ""); [contradiction|].
  rewrite Hown, Hg. rewrite rest_without_eq by exact Hnd.
  rewrite spread_with_new; [reflexivity| |].
  - apply NoDup_keys_filter, NoDup_keys_entries, Hnd.
  - destruct (has_own (filter (key_neq old) (entries (cc_fields st))) (trim v)) eqn:E;
      [|reflexivity].
    apply has_own_filter in E. rewrite has_own_entries in E. congruence.
Qed.

End CardFacts.

Module CardTheorems.
Import Js AnkiCard ObjFacts NumFacts CardFacts Predicates.

Lemma renamed_get (fields : anki_fields) old new f k :
  NoDup (keys fields) -> has_own fields new = false ->
  get (renamed fields old new f) k =
  if String.eqb k new then Some f
  else if String.eqb k old then None else get fields k.
Proof.
  intros Hnd Hown. unfold renamed.
  set (X := filter (key_neq old) (entries fields)).
  assert (HX : NoDup (keys X)) by apply NoDup_keys_filter, NoDup_keys_entries, Hnd.
  assert (HgX : forall k', get (entries X) k' = get X k').
  { intros k'. symmetry. apply get_perm; [exact HX|]. symmetry. apply entries_perm. }
  rewrite get_app_new.
  destruct (String.eqb_spec k new) as [->|Hne].
  - rewrite HgX. unfold X, key_neq. rewrite get_filter_neq.
    destruct (String.eqb new old); [reflexivity|].
    rewrite <- (get_perm fields) by (auto using Permutation_sym, entries_perm).
    rewrite get_notin; [reflexivity|].
    intros Hin. apply has_own_keys in Hin. congruence.
  - rewrite HgX. unfold X, key_neq. rewrite get_filter_neq.
    destruct (String.eqb k old); [reflexivity|].
    symmetry. apply get_perm; [exact Hnd|]. symmetry. apply entries_perm.
Qed.

Lemma renamed_NoDup (fields : anki_fields) old new f :
  NoDup (keys fields) -> has_own fields new = false ->
  NoDup (keys (renamed fields old new f)).
Proof.
  intros Hnd Hown. unfold renamed. rewrite keys_app. simpl.
  apply NoDup_snoc.
  - apply NoDup_keys_entries, NoDup_keys_filter, NoDup_keys_entries, Hnd.
  - intros Hin.
    eapply Permutation_in in Hin; [|apply keys_perm, entries_perm].
    apply keys_filter_incl in Hin.
    eapply Permutation_in in Hin; [|apply keys_perm, entries_perm].
    apply has_own_keys in Hin. congruence.
Qed.

Lemma renamed_order (fields : anki_fields) old new f :
  let P := fun kv => key_neq old kv && key_neq new kv in
  filter P (entries (renamed fields old new f)) = filter P (entries fields).
Proof.
  intros P. unfold renamed.
  rewrite entries_filter, filter_app.
  replace (filter P [(new, f)]) with (@nil (string * anki_field))
    by (unfold P, key_neq; simpl; rewrite String.eqb_refl, andb_false_r; reflexivity).
  rewrite app_nil_r, entries_filter.
  rewrite filter_filter_implied
    by (intros x Hx; unfold P in Hx; apply andb_true_iff in Hx; tauto).
  rewrite !entries_filter, !entries_idem. reflexivity.
Qed.

(** C5 (renameField). On blur the entered name is trimmed. A trimmed name
    equal to the current one changes nothing. An empty trimmed name, or one
    already used by another field, leaves the state unchanged and puts the
    old name back in the input. Any other name re-keys the field map: the
    renamed field keeps its value and overwrite mode, the old key is gone,
    every other field keeps its value, the other fields keep their relative
    display order, and the rows are rebuilt. *)
Theorem rename_field_spec (st : card_ctrl) (index : nat) (v old : string) :
  card_ctrl_ok st ->
  nth_error (cc_field_entries st) index = Some old ->
  (trim v = old -> on_field_name_blur st index v = (st, v)) /\
  (trim v <> old -> (trim v = "" \/ has_own (cc_fields st) (trim v) = true) ->
     on_field_name_blur st index v = (st, old)) /\
  (trim v <> old -> trim v <> "" -> has_own (cc_fields st) (trim v) = false ->
     let st' := fst (on_field_name_blur st index v) in
     get (cc_fields st) old <> None /\
     get (cc_fields st') (trim v) = get (cc_fields st) old /\
     get (cc_fields st') old = None /\
     (forall k, k <> old -> k <> trim v -> get (cc_fields st') k = get (cc_fields st) k) /\
     filter (fun kv => key_neq old kv && key_neq (trim v) kv) (entries (cc_fields st')) =
     filter (fun kv => key_neq old kv && key_neq (trim v) kv) (entries (cc_fields st)) /\
     card_ctrl_ok st').
Proof.
  intros Hok Hn. split; [|split].
  - intros E. unfold on_field_name_blur. rewrite Hn, E, String.eqb_refl. reflexivity.
  - intros Hne Hcase. unfold on_field_name_blur. rewrite Hn.
    destruct (String.eqb_spec (trim v) old); [contradiction|].
    destruct (String.eqb_spec (trim v) ""); [reflexivity|].
    destruct Hcase as [|Ho]; [contradiction|]. rewrite Ho. reflexivity.
  - intros Hne Hempty Hown.
    destruct (blur_success st index v old Hok Hn Hne Hempty Hown) as [f [Hg Hb]].
    rewrite Hb. simpl. destruct Hok as [_ Hnd].
    repeat split.
    + congruence.
    + rewrite renamed_get by assumption. rewrite String.eqb_refl. congruence.
    + rewrite renamed_get by assumption.
      destruct (String.eqb_spec old (trim v)); [congruence|]. now rewrite String.eqb_refl.
    + intros k Hk1 Hk2. rewrite renamed_get by assumption.
      destruct (String.eqb_spec k (trim v)); [contradiction|].
      destruct (String.eqb_spec k old); [contradiction|]. reflexivity.
    + apply renamed_order.
    + now apply renamed_NoDup.
Qed.

(** C10, amended. A successful rename to a name that is not an array index
    puts the renamed field (with its value) last in the object order, hence
    in the last row; a name that is an array index goes among the
    array-index keys, ahead of every other key. *)
Theorem rename_field_position (st : card_ctrl) (index : nat) (v old : string) :
  card_ctrl_ok st ->
  nth_error (cc_field_entries st) index = Some old ->
  trim v <> old -> trim v <> "" -> has_own (cc_fields st) (trim v) = false ->
  exists f, get (cc_fields st) old = Some f /\
    (is_array_index (trim v) = false ->
       exists pre, entries (cc_fields (fst (on_field_name_blur st index v))) =
                   pre ++ [(trim v, f)]) /\
    (is_array_index (trim v) = true ->
       exists pre post, entries (cc_fields (fst (on_field_name_blur st index v))) =
                        pre ++ (trim v, f) :: post /\
                        Forall (fun kv => is_array_index (fst kv) = true) pre).
Proof.
  intros Hok Hn Hne Hempty Hown.
  destruct (blur_success st index v old Hok Hn Hne Hempty Hown) as [f [Hg Hb]].
  exists f. split; [exact Hg|]. rewrite Hb. simpl.
  set (E := entries (filter (key_neq old) (entries (cc_fields st)))).
  unfold renamed. fold E. split.
  - intros Hi. unfold entries at 1. rewrite !filter_app.
    replace (filter is_index_entry [(trim v, f)]) with (@nil (string * anki_field))
      by (simpl; unfold is_index_entry; simpl; now rewrite Hi).
    replace (filter (fun kv => negb (is_index_entry kv)) [(trim v, f)]) with [(trim v, f)]
      by (simpl; unfold is_index_entry; simpl; now rewrite Hi).
    rewrite app_nil_r. eexists. rewrite app_assoc. reflexivity.
  - intros Hi. unfold entries at 1.
    assert (Hin : In (trim v, f) (sort_index (filter is_index_entry (E ++ [(trim v, f)])))).
    { eapply Permutation_in; [symmetry; apply sort_index_perm|].
      apply filter_In. split; [apply in_or_app; right; now left|exact Hi]. }
    apply in_split in Hin as [pre [mid Hsplit]].
    exists pre, (mid ++ filter (fun kv => negb (is_index_entry kv)) (E ++ [(trim v, f)])).
    split; [rewrite Hsplit; now rewrite <- app_assoc|].
    rewrite Forall_forall. intros kv Hkv.
    assert (Hkv' : In kv (sort_index (filter is_index_entry (E ++ [(trim v, f)]))))
      by (rewrite Hsplit; apply in_or_app; now left).
    eapply Permutation_in in Hkv'; [|apply sort_index_perm].
    apply filter_In in Hkv' as [_ H]. exact H.
Qed.

Lemma find_free_name_some (fields : anki_fields) fuel c name :
  find_free_name fields fuel c = Some name ->
  exists k, (c <= k)%nat /\ name = candidate_name k /\ has_own fields name = false /\
    forall j, (c <= j < k)%nat -> has_own fields (candidate_name j) = true.
Proof.
  revert c. induction fuel as [|fuel IH]; intros c H; simpl in H.
  - destruct (has_own fields (candidate_name c)) eqn:E; [discriminate|].
    inversion H; subst. exists c. repeat split; auto. intros j Hj; lia.
  - destruct (has_own fields (candidate_name c)) eqn:E.
    + destruct (IH (S c) H) as [k [Hk [-> [Hown Hall]]]].
      exists k. repeat split; auto; [lia|].
      intros j Hj. destruct (Nat.eq_dec j c) as [->|]; [exact E|]. apply Hall; lia.
    + inversion H; subst. exists c. repeat split; auto. intros j Hj; lia.
Qed.

Lemma find_free_name_none (fields : anki_fields) fuel c :
  find_free_name fields fuel c = None ->
  forall j, (c <= j <= c + fuel)%nat -> has_own fields (candidate_name j) = true.
Proof.
  revert c. induction fuel as [|fuel IH]; intros c H j Hj; simpl in H.
  - destruct (has_own fields (candidate_name c)) eqn:E; [|discriminate].
    replace j with c by lia. exact E.
  - destruct (has_own fields (candidate_name c)) eqn:E; [|discriminate].
    destruct (Nat.eq_dec j c) as [->|]; [exact E|]. apply (IH (S c) H). lia.
Qed.

Lemma candidate_name_inj : Injective candidate_name.
Proof.
  intros [|j] [|k] H; try reflexivity;
    cbn [candidate_name base_name String.append] in H; injection H as H0.
  - pose proof (parse_int_number_to_string (Z.pos (Pos.of_succ_nat k))) as P.
    rewrite <- H0 in P. discriminate P. lia.
  - pose proof (parse_int_number_to_string (Z.pos (Pos.of_succ_nat j))) as P.
    rewrite H0 in P. discriminate P. lia.
  - apply number_to_string_inj in H0; [|lia|lia].
    rewrite !Zpos_P_of_succ_nat in H0. lia.
Qed.

Lemma find_free_name_total (fields : anki_fields) :
  find_free_name fields (length fields) 0 <> None.
Proof.
  intros H. pose proof (find_free_name_none fields (length fields) 0 H) as Hall.
  set (L := map candidate_name (seq 0 (S (length fields)))).
  assert (Hnd : NoDup L) by (apply Injective_map_NoDup; [apply candidate_name_inj|apply seq_NoDup]).
  assert (Hincl : incl L (keys fields)).
  { intros x Hx. unfold L in Hx. apply in_map_iff in Hx as [j [<- Hj]].
    apply in_seq in Hj. apply has_own_keys. apply Hall. lia. }
  pose proof (NoDup_incl_length Hnd Hincl) as Hlen.
  unfold L, keys in Hlen. rewrite !length_map, length_seq in Hlen. lia.
Qed.

(** C6 (addField). The new field is named by the first of [Field],
    [Field1], [Field2], ... that is not a key yet; it is added with value
    [""] and overwrite mode [coalesce], after the existing fields, which keep
    their values; names stay unique, and the new name is now a key, so a
    later addField cannot produce it again. *)
Theorem add_field_spec (st : card_ctrl) :
  card_ctrl_ok st ->
  exists k,
    has_own (cc_fields st) (candidate_name k) = false /\
    (forall j, (j < k)%nat -> has_own (cc_fields st) (candidate_name j) = true) /\
    cc_fields (on_add_field_click st) =
      entries (cc_fields st) ++ [(candidate_name k, mk_field "" "coalesce")] /\
    get (cc_fields (on_add_field_click st)) (candidate_name k) = Some (mk_field "" "coalesce") /\
    (forall k', k' <> candidate_name k ->
       get (cc_fields (on_add_field_click st)) k' = get (cc_fields st) k') /\
    has_own (cc_fields (on_add_field_click st)) (candidate_name k) = true /\
    card_ctrl_ok (on_add_field_click st).
Proof.
  intros [He Hnd].
  destruct (find_free_name (cc_fields st) (length (cc_fields st)) 0) as [name|] eqn:Hf;
    [|exfalso; now apply (find_free_name_total (cc_fields st))].
  destruct (find_free_name_some _ _ _ _ Hf) as [k [_ [-> [Hown Hall]]]].
  assert (Hnd' : NoDup (keys (entries (cc_fields st)))) by now apply NoDup_keys_entries.
  assert (Hnotin : ~ In (candidate_name k) (keys (entries (cc_fields st)))).
  { intros Hin. apply has_own_keys in Hin. rewrite has_own_entries in Hin. congruence. }
  assert (Hst : cc_fields (on_add_field_click st) =
                entries (cc_fields st) ++ [(candidate_name k, mk_field "" "coalesce")]).
  { unfold on_add_field_click. rewrite Hf. simpl.
    rewrite spread_with_new by assumption. reflexivity. }
  exists k. rewrite Hst. repeat split.
  - exact Hown.
  - intros j Hj. apply Hall. lia.
  - rewrite get_app_new, String.eqb_refl, get_notin by exact Hnotin. reflexivity.
  - intros k' Hk'. rewrite get_app_new.
    destruct (String.eqb_spec k' (candidate_name k)); [contradiction|].
    symmetry. apply get_perm; [exact Hnd|]. symmetry. apply entries_perm.
  - apply has_own_keys. rewrite keys_app. apply in_or_app. right. now left.
  - unfold on_add_field_click. rewrite Hf. simpl. f_equal.
    rewrite spread_with_new by assumption. reflexivity.
  - rewrite Hst, keys_app. now apply NoDup_snoc.
Qed.

End CardTheorems.


Module AnkiFacts.
Import Js AnkiCard Anki NumFacts Predicates.


Ltac run_m := unfold bind, modify, get_st, ret, throw, query_not_null; simpl.

Lemma set_card_format_index_state (i : Z) menu (s : ctrl) :
  c_store (state_of (set_card_format_index i menu s)) = c_store s /\
  c_anki_options (state_of (set_card_format_index i menu s)) = c_anki_options s /\
  c_card_format_index (state_of (set_card_format_index i menu s)) = i /\
  c_remove_modal_visible (state_of (set_card_format_index i menu s)) = c_remove_modal_visible s /\
  c_maximum_modal (state_of (set_card_format_index i menu s)) = c_maximum_modal s.
Proof.
  unfold set_card_format_index. run_m.
  destruct (c_primary s) as [[? ? [] [] [] []]|]; simpl; auto.
Qed.

Lemma set_card_format_index_ok (i : Z) menu (s : ctrl) :
  panel_ok s -> exists s', set_card_format_index i menu s = Ret tt s'.
Proof.
  intros (p & t & ic & d & m & Hp & Ht & Hi & Hd & Hm).
  unfold set_card_format_index. run_m. rewrite Hp. simpl.
  rewrite Ht, Hi, Hd, Hm. simpl. eexists. reflexivity.
Qed.

Lemma update_options_state (s : ctrl) :
  let s' := state_of (update_options s) in
  c_store s' = c_store s /\ c_anki_options s' = Some (c_store s) /\
  c_card_format_index s' = clamp_index (Z.of_nat (length (c_store s))) (c_card_format_index s) /\
  c_remove_modal_visible s' = c_remove_modal_visible s /\
  c_maximum_modal s' = c_maximum_modal s.
Proof.
  unfold update_options, setup_tabs. run_m.
  match goal with |- context [set_card_format_index ?i ?m ?s0] =>
    destruct (set_card_format_index_state i m s0) as (A & B & C & D & E) end.
  rewrite A, B, C, D, E. simpl. repeat split; reflexivity.
Qed.

Lemma clamp_index_range (len i : Z) :
  0 <= clamp_index len i /\ (0 <= len -> clamp_index len i <= Z.max len 0).
Proof.
  unfold clamp_index.
  destruct (Z.ltb_spec len i); [destruct (Z.ltb_spec (len - 1) 0)|destruct (Z.ltb_spec i 0)]; lia.
Qed.

Lemma clamp_index_id (len i : Z) : 0 <= i <= len -> clamp_index len i = i.
Proof.
  intros H. unfold clamp_index.
  destruct (Z.ltb_spec len i); [lia|]. destruct (Z.ltb_spec i 0); lia.
Qed.

Lemma splice_delete_length {X} (l : list X) (n : nat) :
  (n < length l)%nat -> length (splice l n 1 []) = (length l - 1)%nat.
Proof.
  intros H. unfold splice. simpl. rewrite length_app, length_firstn, length_skipn. lia.
Qed.

Lemma get_card_format_some (s : ctrl) (i : Z) l :
  c_anki_options s = Some l -> 0 <= i < Z.of_nat (length l) ->
  exists cf, get_card_format s i = Some cf.
Proof.
  intros Ho Hi. unfold get_card_format. rewrite Ho.
  destruct (Z.ltb_spec i 0); [lia|]. destruct (Z.leb_spec (Z.of_nat (length l)) i); [lia|].
  simpl. unfold js_index. destruct (Z.ltb_spec i 0); [lia|].
  destruct (nth_error l (Z.to_nat i)) as [cf|] eqn:E; [now exists cf|].
  apply nth_error_None in E. lia.
Qed.

(** [deleteCardFormat(i)] for an index in range. *)
Lemma delete_card_format_state (s : ctrl) (i : Z) :
  synced s -> 0 <= i < Z.of_nat (length (c_store s)) ->
  let s' := state_of (delete_card_format i s) in
  c_store s' = splice (c_store s) (Z.to_nat i) 1 [] /\ synced s' /\
  c_card_format_index s' =
    clamp_index (Z.of_nat (length (splice (c_store s) (Z.to_nat i) 1 []))) (i - 1) /\
  c_remove_modal_visible s' = c_remove_modal_visible s.
Proof.
  intros Hs Hi. unfold delete_card_format. run_m. rewrite Hs.
  destruct (Z.ltb_spec i 0); [lia|]. destruct (Z.leb_spec (Z.of_nat (length (c_store s))) i); [lia|].
  simpl. run_m.
  match goal with |- context [update_options ?s0] =>
    destruct (update_options_state s0) as (H1 & H2 & H3 & H4 & _) end.
  simpl in *. unfold synced. rewrite H1, H2, H3, H4. repeat split; reflexivity.
Qed.

End AnkiFacts.

Module AnkiTheorems.
Import Js AnkiCard Anki NumFacts AnkiFacts Predicates.

Lemma try_get_valid_number (s : ctrl) l (i : Z) :
  c_anki_options s = Some l -> 0 <= i < Z.of_nat (length l) ->
  try_get_valid_card_format_index s (Some (number_to_string i)) = Some i.
Proof.
  intros Ho Hi. unfold try_get_valid_card_format_index.
  rewrite parse_int_number_to_string by lia. rewrite Ho.
  destruct (Z.leb_spec 0 i); [|lia]. destruct (Z.ltb_spec i (Z.of_nat (length l))); [|lia].
  reflexivity.
Qed.

(** C1 (deleteFormat). With the removal dialog closed: on a one-element
    list the delete action does nothing at all; on a list of two or more
    with the selected format as the index, it removes exactly that format,
    so the list shrinks by one and keeps at least one element, and the
    selection stays in range. *)
Theorem delete_format_spec (s : ctrl) :
  synced s -> c_remove_modal_visible s = false ->
  (length (c_store s) = 1%nat -> delete_format s = Ret tt s) /\
  ((2 <= length (c_store s))%nat ->
   0 <= c_card_format_index s < Z.of_nat (length (c_store s)) ->
     c_store (state_of (delete_format s)) =
       firstn (Z.to_nat (c_card_format_index s)) (c_store s) ++
       skipn (Z.to_nat (c_card_format_index s) + 1) (c_store s) /\
     length (c_store (state_of (delete_format s))) = (length (c_store s) - 1)%nat /\
     (1 <= length (c_store (state_of (delete_format s))))%nat /\
     0 <= c_card_format_index (state_of (delete_format s)) <
          Z.of_nat (length (c_store (state_of (delete_format s))))).
Proof.
  intros Hs Hv. split.
  - intros Hlen. unfold delete_format, on_card_format_delete_click. run_m.
    rewrite Hs, Hlen. simpl. rewrite Hv. reflexivity.
  - intros Hlen Hi.
    set (i := c_card_format_index s) in *.
    destruct (get_card_format_some s i (c_store s) Hs Hi) as [cf Hcf].
    unfold delete_format, on_card_format_delete_click. run_m.
    rewrite Hs. destruct (Nat.eqb_spec (length (c_store s)) 1) as [E|_]; [lia|].
    unfold open_delete_card_format_modal. run_m. fold i. rewrite Hcf. simpl.
    unfold on_card_format_remove_confirm. run_m.
    rewrite Hs, parse_int_number_to_string by lia.
    destruct (Z.leb_spec 0 i); [|lia].
    destruct (Z.ltb_spec i (Z.of_nat (length (c_store s)))); [|lia]. simpl.
    match goal with |- context [delete_card_format i ?s0] =>
      destruct (delete_card_format_state s0 i) as (H1 & H2 & H3 & _) end;
      [exact Hs|exact Hi|].
    simpl in *. rewrite H1, H3.
    pose proof (splice_delete_length (c_store s) (Z.to_nat i)) as Hl.
    rewrite Hl by lia.
    split; [unfold splice; reflexivity|]. split; [reflexivity|]. split; [lia|].
    unfold clamp_index;
      destruct (Z.ltb_spec (Z.of_nat (length (c_store s) - 1)) (i - 1));
      [destruct (Z.ltb_spec (Z.of_nat (length (c_store s) - 1) - 1) 0)
      |destruct (Z.ltb_spec (i - 1) 0)]; lia.
Qed.

Lemma splice_append {X} (l : list X) x : splice l (length l) 0 [x] = l ++ [x].
Proof. unfold splice. rewrite firstn_all, Nat.add_0_r, skipn_all, app_nil_r. reflexivity. Qed.

Lemma add_new_format_state (s : ctrl) :
  (length (c_store s) < 5)%nat ->
  let s' := state_of (add_new_format s) in
  c_store s' = c_store s ++ [default_card_format (length (c_store s))] /\ synced s' /\
  c_card_format_index s' =
    clamp_index (Z.of_nat (S (length (c_store s)))) (c_card_format_index s).
Proof.
  intros Hlen. unfold add_new_format, bind, get_st. cbv beta iota.
  replace (5 <=? length (c_store s))%nat with false by (symmetry; apply Nat.leb_gt; exact Hlen).
  run_m.
  match goal with |- context [update_options ?s0] =>
    destruct (update_options_state s0) as (H1 & H2 & H3 & _) end.
  simpl in *. unfold synced. rewrite H1, H2, H3, splice_append, length_app.
  simpl. rewrite Nat.add_1_r. repeat split; reflexivity.
Qed.

(** C2, amended. After an insert (the list has fewer than 5 formats and
    the selection lies in [0, length], as every reload leaves it) the
    selection is unchanged and valid. After [deleteCardFormat(i)] of a
    valid index on a list of two or more, followed by the reload, the
    selection is [max(i - 1, 0)] whatever it was before, and valid; in the
    delete button's flow [i] is the selection itself. *)
Theorem insert_delete_selection (s : ctrl) (i : Z) :
  synced s ->
  ((length (c_store s) < 5)%nat ->
   0 <= c_card_format_index s <= Z.of_nat (length (c_store s)) ->
     c_card_format_index (state_of (add_new_format s)) = c_card_format_index s /\
     0 <= c_card_format_index (state_of (add_new_format s)) <=
          Z.of_nat (length (c_store (state_of (add_new_format s)))) - 1) /\
  ((2 <= length (c_store s))%nat -> 0 <= i < Z.of_nat (length (c_store s)) ->
     c_store (state_of (delete_card_format i s)) = splice (c_store s) (Z.to_nat i) 1 [] /\
     c_card_format_index (state_of (delete_card_format i s)) = Z.max (i - 1) 0 /\
     0 <= c_card_format_index (state_of (delete_card_format i s)) <=
          Z.of_nat (length (c_store (state_of (delete_card_format i s)))) - 1).
Proof.
  intros Hs. split.
  - intros Hlen Hi. destruct (add_new_format_state s Hlen) as (H1 & _ & H3).
    rewrite H3, H1, length_app. simpl.
    rewrite clamp_index_id by lia. split; [reflexivity|lia].
  - intros Hlen Hi. destruct (delete_card_format_state s i Hs Hi) as (H1 & _ & H3 & _).
    rewrite H3, H1, splice_delete_length by lia.
    split; [reflexivity|]. unfold clamp_index.
    destruct (Z.ltb_spec (Z.of_nat (length (c_store s) - 1)) (i - 1)); [lia|].
    destruct (Z.ltb_spec (i - 1) 0); lia.
Qed.

(** C3 (addFormat). Below 5 formats, a default format named
    [Format <n+1>] is appended; at 5 or more nothing changes but the
    "maximum reached" dialog, which is shown; so from at most 5 formats the
    list never exceeds 5. *)
Theorem add_format_spec (s : ctrl) :
  ((length (c_store s) < 5)%nat ->
     c_store (state_of (add_new_format s)) =
       c_store s ++ [default_card_format (length (c_store s))]) /\
  ((5 <= length (c_store s))%nat ->
     add_new_format s =
       Ret tt (set_maximum_modal (option_map (fun _ => true) (c_maximum_modal s)) s)) /\
  ((length (c_store s) <= 5)%nat ->
     (length (c_store (state_of (add_new_format s))) <= 5)%nat).
Proof.
  assert (Hge : (5 <= length (c_store s))%nat ->
     add_new_format s =
       Ret tt (set_maximum_modal (option_map (fun _ => true) (c_maximum_modal s)) s)).
  { intros H. unfold add_new_format, bind, get_st. cbv beta iota.
    replace (5 <=? length (c_store s))%nat with true by (symmetry; apply Nat.leb_le; exact H).
    reflexivity. }
  split; [|split; [exact Hge|]].
  - intros H. now destruct (add_new_format_state s H) as (H1 & _).
  - intros H. destruct (Nat.lt_ge_cases (length (c_store s)) 5) as [Hl|Hl].
    + destruct (add_new_format_state s Hl) as (H1 & _). rewrite H1, length_app. simpl. lia.
    + rewrite (Hge Hl). simpl. exact H.
Qed.


End AnkiTheorems.


Module MarkerTheorems.
Import Js AnkiCard Markers MarkerSpec ObjFacts Predicates.

Lemma canon_lower (c d : ascii) :
  Ascii.eqb (canon c) (canon d) = true <-> ascii_lower c = ascii_lower d.
Proof.
  rewrite Ascii.eqb_eq. unfold canon, ascii_lower.
  pose proof (nat_ascii_bounded c) as Bc. pose proof (nat_ascii_bounded d) as Bd.
  set (n := nat_of_ascii c) in *. set (m := nat_of_ascii d) in *.
  assert (Hc : c = ascii_of_nat n) by (unfold n; now rewrite ascii_nat_embedding).
  assert (Hd : d = ascii_of_nat m) by (unfold m; now rewrite ascii_nat_embedding).
  assert (Inj : forall a b, (a < 256)%nat -> (b < 256)%nat ->
                 ascii_of_nat a = ascii_of_nat b <-> a = b).
  { intros a b Ha Hb. split; [|now intros ->].
    intros E. apply (f_equal nat_of_ascii) in E.
    now rewrite !nat_ascii_embedding in E. }
  destruct ((97 <=? n)%nat && (n <=? 122)%nat) eqn:E1;
  destruct ((97 <=? m)%nat && (m <=? 122)%nat) eqn:E2;
  destruct ((65 <=? n)%nat && (n <=? 90)%nat) eqn:E3;
  destruct ((65 <=? m)%nat && (m <=? 90)%nat) eqn:E4;
  repeat match goal with
  | H : (_ && _)%bool = true |- _ => apply andb_true_iff in H as [? ?]
  | H : (_ && _)%bool = false |- _ => apply andb_false_iff in H as [?|?]
  | H : (_ <=? _)%nat = true |- _ => apply Nat.leb_le in H
  | H : (_ <=? _)%nat = false |- _ => apply Nat.leb_gt in H
  end;
  rewrite ?Hc, ?Hd, ?Inj by lia; lia.
Qed.

Lemma all_sep_app_inv (r f : string) d :
  all_sep (String d r) = true -> is_sep d = true /\ all_sep r = true.
Proof. simpl. apply andb_true_iff. Qed.

Lemma sep_run_spec (ps : list atom) (f : string) :
  (fix run (s : string) : bool :=
     match_atoms ps s ||
     match s with
     | String d s' => is_sep d && run s'
     | EmptyString => false
     end) f = true <->
  exists r f', all_sep r = true /\ f = (r ++ f')%string /\ match_atoms ps f' = true.
Proof.
  induction f as [|d f IH].
  - rewrite orb_false_r. split.
    + intros H. now exists EmptyString, EmptyString.
    + intros (r & f' & Hr & Hf & Hm). destruct r; [|discriminate]. simpl in Hf. now subst.
  - rewrite orb_true_iff, andb_true_iff, IH. split.
    + intros [H|[Hd (r & f' & Hr & Hf & Hm)]].
      * now exists EmptyString, (String d f).
      * exists (String d r), f'. simpl. rewrite Hd, Hr, Hf. now repeat split.
    + intros (r & f' & Hr & Hf & Hm). destruct r as [|d' r].
      * left. simpl in Hf. now subst.
      * right. simpl in Hf. injection Hf as -> Hf. simpl in Hr.
        apply andb_true_iff in Hr as [Hd Hr]. split; [exact Hd|].
        now exists r, f'.
Qed.

(** The pattern built from a name matches exactly the spellings [relaxed]
    describes. *)
Lemma match_atoms_relaxed (name field : string) :
  match_atoms (name_atoms name) field = true <-> relaxed name field.
Proof.
  revert field. induction name as [|c name IH]; intros field.
  - simpl. split.
    + destruct field; [constructor|discriminate].
    + intros H. inversion H. reflexivity.
  - simpl. destruct (Ascii.eqb_spec c "-") as [->|Hc].
    + rewrite sep_run_spec. split.
      * intros (r & f' & Hr & -> & Hm). constructor; [exact Hr|]. now apply IH.
      * intros H. inversion H as [|c' d n f Hne|r n f Hr Hn]; subst; [now contradiction Hne|].
        exists r, f. repeat split; auto. now apply IH.
    + destruct field as [|d field].
      * split; [discriminate|]. intros H. inversion H; subst; contradiction.
      * rewrite andb_true_iff, canon_lower, IH. split.
        -- intros [H1 H2]. now constructor.
        -- intros H. inversion H; subst; [tauto|contradiction].
Qed.

Lemma pattern_test_iff (names : list string) (field : string) :
  pattern_test names field = true <-> exists n, In n names /\ relaxed n field.
Proof.
  unfold pattern_test. rewrite existsb_exists.
  split; intros [n [Hn Hm]]; exists n; split; auto; now apply match_atoms_relaxed.
Qed.

Lemma first_marker_spec (markers : list string) (field : string) :
  (first_marker markers field = "" /\
   forall m, In m markers -> forall n, In n (marker_names m) -> ~ relaxed n field) \/
  (exists pre m post, markers = pre ++ m :: post /\
     first_marker markers field = ("{" ++ m ++ "}")%string /\
     (exists n, In n (marker_names m) /\ relaxed n field) /\
     forall m', In m' pre -> forall n, In n (marker_names m') -> ~ relaxed n field).
Proof.
  induction markers as [|m markers IH]; cbn [first_marker].
  - left. split; [reflexivity|contradiction].
  - destruct (pattern_test (marker_names m) field) eqn:E.
    + right. exists [], m, markers. split; [reflexivity|]. split; [reflexivity|].
      split; [now apply pattern_test_iff|contradiction].
    + assert (Hm : forall n, In n (marker_names m) -> ~ relaxed n field).
      { intros n Hn Hr. assert (pattern_test (marker_names m) field = true)
          by (apply pattern_test_iff; eauto). congruence. }
      destruct IH as [[H1 H2]|(pre & m' & post & -> & H1 & H2 & H3)].
      * left. split; [exact H1|]. intros m0 [<-|Hin]; [exact Hm|]. now apply H2.
      * right. exists (m :: pre), m', post. repeat split; auto.
        intros m0 [<-|Hin]; [exact Hm|]. now apply H3.
Qed.

(** The aliases of a marker, as the map holds them. *)
Lemma marker_names_cases (m : string) :
  marker_names m = [m] \/
  exists a, In (m, a) marker_aliases /\ marker_names m = m :: a.
Proof.
  unfold marker_names. destruct (get marker_aliases m) as [a|] eqn:E.
  - right. exists a. split; [now apply get_In|reflexivity].
  - left. reflexivity.
Qed.

Lemma first_marker_hit (markers : list string) (field target : string) :
  In target markers -> pattern_test (marker_names target) field = true ->
  (forall m, In m markers -> m <> target -> pattern_test (marker_names m) field = false) ->
  first_marker markers field = ("{" ++ target ++ "}")%string.
Proof.
  induction markers as [|m markers IH]; cbn [first_marker In]; [contradiction|].
  intros [->|Hin] Ht Hothers.
  - now rewrite Ht.
  - destruct (String.eqb_spec m target) as [->|Hne]; [now rewrite Ht|].
    rewrite (Hothers m (or_introl eq_refl) Hne). apply IH; auto.
Qed.

Lemma first_marker_miss (markers : list string) (field : string) :
  (forall m, In m markers -> pattern_test (marker_names m) field = false) ->
  first_marker markers field = "".
Proof.
  induction markers as [|m markers IH]; cbn [first_marker]; [reflexivity|].
  intros H. rewrite (H m (or_introl eq_refl)). apply IH. intros m' Hm'. apply H. now right.
Qed.

Lemma aliases_not_term_reading (m : string) a :
  In (m, a) marker_aliases -> m <> "reading" ->
  forall n, In n a -> match_atoms (name_atoms n) "Term-Reading" = false.
Proof.
  intros Hin Hne. vm_compute in Hin.
  repeat (destruct Hin as [Hin|Hin]; [injection Hin as <- <-; try congruence;
    intros n Hn; simpl in Hn; repeat (destruct Hn as [<-|Hn]; [reflexivity|]); contradiction|]).
  contradiction.
Qed.

Lemma aliases_not_unknown (m : string) a :
  In (m, a) marker_aliases ->
  forall n, In n a -> match_atoms (name_atoms n) "unknown-field" = false.
Proof.
  intros Hin. vm_compute in Hin.
  repeat (destruct Hin as [Hin|Hin]; [injection Hin as <- <-;
    intros n Hn; simpl in Hn; repeat (destruct Hn as [<-|Hn]; [reflexivity|]); contradiction|]).
  contradiction.
Qed.

Lemma pattern_test_false (names : list string) (f : string) :
  (forall n, In n names -> match_atoms (name_atoms n) f = false) ->
  pattern_test names f = false.
Proof.
  unfold pattern_test. induction names as [|n names IH]; intros H; [reflexivity|].
  cbn [existsb]. rewrite (H n (or_introl eq_refl)). apply IH. intros n' Hn'. apply H. now right.
Qed.

Lemma match_atoms_false (n f : string) : ~ relaxed n f -> match_atoms (name_atoms n) f = false.
Proof.
  intros H. destruct (match_atoms (name_atoms n) f) eqn:E; [|reflexivity].
  exfalso. apply H. now apply match_atoms_relaxed.
Qed.

(** C7 (default marker lookup). For a row other than the first with no old
    value, the default is [{m}] for the first marker [m] of the standard
    list one of whose names (the marker or an alias of the alias map)
    spells the field name up to case, each hyphen standing for any run of
    hyphens, underscores and spaces; it is [""] when no marker matches. For
    any marker list holding [reading] and no other marker spelled like
    "Term-Reading", "Term-Reading" gives [{reading}]; for any marker list
    with no marker spelled like "unknown-field", "unknown-field" gives [""]. *)
Theorem default_field_value_spec (standard_markers : string -> list string)
    (field_name : string) (index : Z) (entry_type : string) :
  index <> 0 ->
  ((get_default_field_value standard_markers field_name index entry_type None = "" /\
    forall m, In m (standard_markers entry_type) ->
      forall n, In n (marker_names m) -> ~ relaxed n field_name) \/
   (exists pre m post, standard_markers entry_type = pre ++ m :: post /\
     get_default_field_value standard_markers field_name index entry_type None =
       ("{" ++ m ++ "}")%string /\
     (exists n, In n (marker_names m) /\ relaxed n field_name) /\
     forall m', In m' pre -> forall n, In n (marker_names m') -> ~ relaxed n field_name)) /\
  (In "reading" (standard_markers entry_type) ->
   (forall m, In m (standard_markers entry_type) -> m <> "reading" -> ~ relaxed m "Term-Reading") ->
   get_default_field_value standard_markers "Term-Reading" index entry_type None = "{reading}") /\
  ((forall m, In m (standard_markers entry_type) -> ~ relaxed m "unknown-field") ->
   get_default_field_value standard_markers "unknown-field" index entry_type None = "").
Proof.
  intros Hi. unfold get_default_field_value.
  destruct (Z.eqb_spec index 0) as [|_]; [contradiction|].
  split; [|split].
  - apply first_marker_spec.
  - intros Hin Hothers. apply (first_marker_hit _ _ "reading"); [exact Hin|reflexivity|].
    intros m Hm Hne. apply pattern_test_false.
    destruct (marker_names_cases m) as [->|(a & Ha & ->)]; intros n [<-|Hn].
    + apply match_atoms_false. now apply Hothers.
    + contradiction.
    + apply match_atoms_false. now apply Hothers.
    + now apply (aliases_not_term_reading m a).
  - intros Hnone. apply first_marker_miss. intros m Hm. apply pattern_test_false.
    destruct (marker_names_cases m) as [->|(a & Ha & ->)]; intros n [<-|Hn].
    + apply match_atoms_false. now apply Hnone.
    + contradiction.
    + apply match_atoms_false. now apply Hnone.
    + now apply (aliases_not_unknown m a).
Qed.

End MarkerTheorems.

Module ValidateTheorems.
Import Validate Predicates.

Lemma opt_string_eqb_false (o : option string) :
  opt_string_eqb o "false" = true <-> o = Some "false".
Proof.
  destruct o as [t|]; simpl; [|split; discriminate].
  rewrite String.eqb_eq. split; [now intros ->|now injection 1].
Qed.

(** C8 (row validation). [_validateField] sets the row's [invalid] flag to
    "true" exactly when the row's permission flag reads "false", or the row
    index is 0 and its value holds no field marker, and to "false"
    otherwise; it changes nothing else of the row and returns normally. With
    the permission query settled ([_validateFieldPermissions]), the row is
    flagged exactly when it requires permissions that are not granted, or
    the row index is 0 and its value holds no field marker. *)
Theorem validate_field_spec (contains_marker : string -> bool)
    (required : string -> list string) (granted : list string -> bool)
    (node : field_input) (index : Z) :
  (fi_invalid (validate_field contains_marker node index) = Some "true" <->
     fi_has_permissions node = Some "false" \/
     (index = 0 /\ contains_marker (fi_value node) = false)) /\
  (fi_invalid (validate_field contains_marker node index) = Some "true" \/
   fi_invalid (validate_field contains_marker node index) = Some "false") /\
  fi_value (validate_field contains_marker node index) = fi_value node /\
  fi_required_permission (validate_field contains_marker node index) =
    fi_required_permission node /\
  fi_has_permissions (validate_field contains_marker node index) =
    fi_has_permissions node /\
  (fi_invalid (validate_field_permissions contains_marker required granted node index)
     = Some "true" <->
   (required (fi_value node) <> [] /\ granted (required (fi_value node)) = false) \/
   (index = 0 /\ contains_marker (fi_value node) = false)).
Proof.
  assert (Hv : forall n,
    fi_invalid (validate_field contains_marker n index) = Some "true" <->
      fi_has_permissions n = Some "false" \/
      (index = 0 /\ contains_marker (fi_value n) = false)).
  { intros n. unfold validate_field. cbn [fi_invalid fi_value].
    rewrite <- opt_string_eqb_false.
    destruct (opt_string_eqb (fi_has_permissions n) "false");
    destruct (Z.eqb_spec index 0); destruct (contains_marker (fi_value n));
    simpl; intuition congruence. }
  split; [apply Hv|]. split.
  { unfold validate_field. cbn [fi_invalid].
    destruct (opt_string_eqb _ _), (index =? 0), (contains_marker _); simpl; auto. }
  split; [reflexivity|]. split; [reflexivity|]. split; [reflexivity|].
  unfold validate_field_permissions.
  destruct (required (fi_value node)) as [|p ps] eqn:E.
  - rewrite Hv. cbn [fi_has_permissions fi_value]. intuition congruence.
  - rewrite Hv. cbn [fi_has_permissions fi_value]. unfold bool_to_string.
    destruct (granted (p :: ps)); intuition congruence.
Qed.

End ValidateTheorems.

Module ErrorTheorems.
Import AnkiErrors Predicates.

Lemma list_ascii_of_string_snoc (p : string) (c : ascii) :
  list_ascii_of_string (p ++ String c EmptyString) = list_ascii_of_string p ++ [c].
Proof. induction p as [|d p IH]; simpl; congruence. Qed.

Lemma string_of_list_ascii_snoc (l : list ascii) (c : ascii) :
  string_of_list_ascii (l ++ [c]) = (string_of_list_ascii l ++ String c EmptyString)%string.
Proof. induction l as [|d l IH]; simpl; congruence. Qed.

(** [ends_in_punct] holds of the strings whose last character is one of
    [.], [!] and [?]. *)
Lemma ends_in_punct_iff (s : string) :
  ends_in_punct s = true <->
  exists p c, s = (p ++ String c EmptyString)%string /\
              (c = "."%char \/ c = "!"%char \/ c = "?"%char).
Proof.
  unfold ends_in_punct. split.
  - destruct (rev (list_ascii_of_string s)) as [|c r] eqn:E; [discriminate|].
    intros H. exists (string_of_list_ascii (rev r)), c. split.
    + rewrite <- string_of_list_ascii_snoc, <- (string_of_list_ascii_of_string s).
      f_equal. rewrite <- (rev_involutive (list_ascii_of_string s)), E. reflexivity.
    + apply orb_true_iff in H as [H|H]; [apply orb_true_iff in H as [H|H]|];
        apply Ascii.eqb_eq in H; auto.
  - intros (p & c & -> & Hc). rewrite list_ascii_of_string_snoc, rev_app_distr. simpl.
    destruct Hc as [ -> | [ -> | -> ] ]; reflexivity.
Qed.

(** C9 (remote errors), as the code has it. A failed deck-name or
    model-name fetch yields no names and the error; [_getAnkiData] always
    resolves; when the deck fetch fails it shows that error, and otherwise
    when the model fetch fails it shows that one. The text shown is the error's
    message, or the error's [toString] when the message is empty, with a
    period appended unless it already ends in [.], [!] or [?]. *)
Theorem anki_error_display (sort : list string -> list string)
    (default_content : string) (enabled : bool)
    (deck_call model_call : outcome (list string)) (s : status) (e : js_error) :
  get_names sort (Rejected e) = ([], Some e) /\
  (exists d, fst (get_anki_data sort default_content enabled deck_call model_call s)
               = Resolved d) /\
  (deck_call = Rejected e \/
   ((exists r, deck_call = Resolved r) /\ model_call = Rejected e) ->
   snd (get_anki_data sort default_content enabled deck_call model_call s) =
     show_anki_error e (set_anki_status_changing default_content s)) /\
  (let m := if String.eqb (err_message e) "" then error_to_string e else err_message e in
   st_text (show_anki_error e s) =
     if ends_in_punct m then m else (m ++ ".")%string) /\
  st_danger (show_anki_error e s) = true.
Proof.
  split; [reflexivity|]. split.
  { unfold get_anki_data.
    destruct (get_names sort deck_call), (get_names sort model_call). simpl. eauto. }
  split; [|split; reflexivity].
  intros [ -> | [[r ->] ->] ]; unfold get_anki_data; simpl;
    [destruct (get_names sort model_call)|]; reflexivity.
Qed.

End ErrorTheorems.

(* ------------------------------------------------------------------------- *)
(** ** Tabs, panel inputs and the options event *)

Module AnkiMoreFacts.
Import Js AnkiCard Anki NumFacts Predicates AnkiFacts AnkiMore.

Lemma parse_int_number_to_string_all (z : Z) : parse_int (number_to_string z) = Some z.
Proof.
  destruct z as [|p|p]; [reflexivity|apply parse_int_number_to_string; lia|].
  destruct (number_to_string_pos p) as [d [Hs [Hn Hv]]].
  assert (E : number_to_string (Zneg p) = String "-" (number_to_string (Zpos p))) by reflexivity.
  rewrite E, Hs. unfold parse_int.
  destruct d; [contradiction|..]; simpl; rewrite digit_prefix_uint, NilEmpty.usu;
    change (Zneg p) with (Z.opp (Zpos p)); rewrite <- Hv; reflexivity.
Qed.

Lemma make_tabs_length (c : Z) (i : nat) (l : list card_format) :
  length (make_tabs c i l) = length l.
Proof. revert i; induction l; intros i; simpl; auto. Qed.

Lemma make_tabs_nth (c : Z) (i : nat) (l : list card_format) (k : nat) :
  nth_error (make_tabs c i l) k = option_map (make_tab c (i + k)) (nth_error l k).
Proof.
  revert i k. induction l as [|cf l IH]; intros i k; [now destruct k|].
  destruct k as [|k]; simpl; [now rewrite Nat.add_0_r|].
  rewrite IH. now rewrite Nat.add_succ_r.
Qed.

Lemma make_tabs_checked (c : Z) (i : nat) (l : list card_format) :
  length (filter tab_checked (make_tabs c i l)) =
  if (Z.of_nat i <=? c) && (c <? Z.of_nat (i + length l)) then 1%nat else 0%nat.
Proof.
  revert i. induction l as [|cf l IH]; intros i.
  - simpl. rewrite Nat.add_0_r. destruct (Z.leb_spec (Z.of_nat i) c), (Z.ltb_spec c (Z.of_nat i));
      simpl; auto; lia.
  - cbn [make_tabs filter]. unfold make_tab at 1. cbn [tab_checked].
    destruct (Z.eqb_spec (Z.of_nat i) c) as [<-|Hne]; cbn [length]; rewrite IH.
    + destruct (Z.leb_spec (Z.of_nat (S i)) (Z.of_nat i)); [lia|]. simpl.
      destruct (Z.leb_spec (Z.of_nat i) (Z.of_nat i)); [|lia].
      destruct (Z.ltb_spec (Z.of_nat i) (Z.of_nat (i + S (length l)))); [|lia]. reflexivity.
    + cbn [length]. rewrite Nat.add_succ_r.
      destruct (Z.leb_spec (Z.of_nat (S i)) c), (Z.leb_spec (Z.of_nat i) c),
        (Z.ltb_spec c (Z.of_nat (S i + length l))), (Z.ltb_spec c (Z.of_nat (S (i + length l))));
        simpl; auto; lia.
Qed.

(** Everything [_setCardFormatIndex] does when the panel is complete. *)
Lemma set_index_facts (i : Z) (menu : option string) (s : ctrl) :
  panel_ok s ->
  exists s', set_card_format_index i menu s = Ret tt s' /\
    c_store s' = c_store s /\ c_anki_options s' = c_anki_options s /\
    c_card_format_index s' = i /\ c_tabs s' = c_tabs s /\
    c_delete_disabled s' = c_delete_disabled s /\
    c_remove_modal_visible s' = c_remove_modal_visible s /\
    c_remove_modal_index s' = c_remove_modal_index s /\
    el_setting (c_name_input s') = Some (format_path i "name") /\
    exists p t ic d m, c_primary s' = Some p /\
      pn_card_format_index p = Some (number_to_string i) /\ pn_anki_card_menu p = menu /\
      pn_type_select p = Some t /\ el_setting t = Some (format_path i "type") /\
      pn_icon_select p = Some ic /\ el_setting ic = Some (format_path i "icon") /\
      el_icon ic = Some (match c_anki_options s with
                         | Some l => match js_index l i with Some cf => cf_icon cf | None => "big-circle" end
                         | None => "big-circle" end) /\
      pn_deck_input p = Some d /\ el_setting d = Some (format_path i "deck") /\
      pn_model_input p = Some m /\ el_setting m = Some (format_path i "model").
Proof.
  intros (p & t & ic & d & m & Hp & Ht & Hi & Hd & Hm).
  unfold set_card_format_index. run_m. rewrite Hp. simpl. rewrite Ht, Hi, Hd, Hm. simpl.
  eexists. split; [reflexivity|]. simpl.
  repeat split; try reflexivity.
  do 5 eexists. repeat split; reflexivity.
Qed.

Lemma set_index_panel_ok (i : Z) (menu : option string) (s s' : ctrl) :
  panel_ok s -> set_card_format_index i menu s = Ret tt s' -> panel_ok s'.
Proof.
  intros Hp E. destruct (set_index_facts i menu s Hp)
    as (s0 & E0 & _ & _ & _ & _ & _ & _ & _ & _ & p & t & ic & d & m & H1 & _ & _ & H2 & _ & H3 & _ & _ & H4 & _ & H5 & _).
  rewrite E in E0. injection E0 as <-. exists p, t, ic, d, m. auto.
Qed.

Lemma set_index_keeps (i : Z) (menu : option string) (s : ctrl) :
  c_tabs (state_of (set_card_format_index i menu s)) = c_tabs s /\
  c_delete_disabled (state_of (set_card_format_index i menu s)) = c_delete_disabled s.
Proof.
  unfold set_card_format_index. run_m.
  destruct (c_primary s) as [[? ? [] [] [] []]|]; simpl; auto.
Qed.

(** [_setupTabs(formats)]. *)
Lemma setup_tabs_state (l : list card_format) (s : ctrl) :
  let i := clamp_index (Z.of_nat (length l)) (c_card_format_index s) in
  let s' := state_of (setup_tabs l s) in
  c_tabs s' = make_tabs i 0 l /\
  c_delete_disabled s' = (Z.of_nat (length l) <=? 1) /\
  c_card_format_index s' = i /\
  c_anki_options s' = c_anki_options s /\ c_store s' = c_store s /\
  c_remove_modal_visible s' = c_remove_modal_visible s /\
  (panel_ok s -> exists s'', setup_tabs l s = Ret tt s'' /\ panel_ok s'').
Proof.
  unfold setup_tabs. run_m.
  match goal with |- context [set_card_format_index ?i ?m ?s0] =>
    destruct (set_card_format_index_state i m s0) as (A & B & C & V & _);
    destruct (set_index_keeps i m s0) as [D E];
    pose proof (fun H => set_index_facts i m s0 H) as F;
    pose proof (fun H => set_index_panel_ok i m s0 H) as G end.
  rewrite A, B, C, D, E, V. simpl. repeat split; try reflexivity.
  intros Hp. destruct F as (s'' & Hs'' & _).
  { destruct Hp as (p & t & ic & d & m & Hp & Ht & Hi & Hd & Hm). exists p, t, ic, d, m. auto. }
  exists s''. split; [exact Hs''|]. apply (G s''); [|exact Hs''].
  destruct Hp as (p & t & ic & d & m & Hp & Ht & Hi & Hd & Hm). exists p, t, ic, d, m. auto.
Qed.

Lemma replace_nth_length {X} (l : list X) n x : length (replace_nth l n x) = length l.
Proof. revert n; induction l; intros [|n]; simpl; auto. Qed.

Lemma replace_nth_same {X} (l : list X) n x :
  (n < length l)%nat -> nth_error (replace_nth l n x) n = Some x.
Proof. revert n; induction l; intros [|n] H; simpl in *; auto; try lia; try (apply IHl; lia). Qed.

Lemma replace_nth_other {X} (l : list X) n k x :
  k <> n -> nth_error (replace_nth l n x) k = nth_error l k.
Proof.
  revert n k; induction l; intros [|n] [|k] H; simpl; auto; try lia; try (apply IHl; lia).
Qed.

End AnkiMoreFacts.

Module AnkiMoreTheorems.
Import Js AnkiCard Anki NumFacts Predicates AnkiFacts AnkiMore AnkiMoreFacts.

(** X1. [_setupTabs(formats)] rebuilds the tabs: one per format, in list order;
    tab [k] shows the format's name, holds its type and the field menu
    [anki-card-<type>-field-menu], and its [data-card-format-index] reads back
    as [k] with [Number.parseInt]; exactly the tab at the new selection is
    checked; the delete button is disabled when at most one format is left. *)
Theorem setup_tabs_layout (l : list card_format) (s : ctrl) :
  let s' := state_of (setup_tabs l s) in
  length (c_tabs s') = length l /\
  (forall k cf, nth_error l k = Some cf ->
     exists t, nth_error (c_tabs s') k = Some t /\
       tab_label t = cf_name cf /\ tab_value t = cf_type cf /\
       tab_menu t = ("anki-card-" ++ cf_type cf ++ "-field-menu")%string /\
       parse_int (tab_card_format_index t) = Some (Z.of_nat k) /\
       tab_checked t = (Z.of_nat k =? c_card_format_index s')) /\
  c_delete_disabled s' = (Z.of_nat (length l) <=? 1).
Proof.
  cbv zeta. destruct (setup_tabs_state l s) as (Ht & Hd & Hi & _).
  rewrite Ht, Hd, Hi. split; [apply make_tabs_length|]. split; [|reflexivity].
  intros k cf Hk. rewrite make_tabs_nth, Hk. simpl.
  eexists. split; [reflexivity|]. unfold make_tab. simpl.
  repeat split; try reflexivity. apply parse_int_number_to_string_all.
Qed.

(** X2. The selection [_setupTabs] keeps: an index in [0, length] stays as it
    is (so it can equal the length, one past the last format), a larger one
    becomes [max(length - 1, 0)], a negative one [0]; one tab is checked when
    the selection is below the length, none when it equals it. *)
Theorem setup_tabs_selection (l : list card_format) (s : ctrl) :
  let len := Z.of_nat (length l) in
  let i' := c_card_format_index (state_of (setup_tabs l s)) in
  (0 <= c_card_format_index s <= len -> i' = c_card_format_index s) /\
  (len < c_card_format_index s -> i' = Z.max (len - 1) 0) /\
  (c_card_format_index s < 0 -> i' = 0) /\
  0 <= i' <= len /\
  length (filter tab_checked (c_tabs (state_of (setup_tabs l s)))) =
    if i' <? len then 1%nat else 0%nat.
Proof.
  cbv zeta. destruct (setup_tabs_state l s) as (Ht & _ & Hi & _).
  rewrite Ht, Hi, make_tabs_checked. simpl.
  unfold clamp_index.
  destruct (Z.ltb_spec (Z.of_nat (length l)) (c_card_format_index s));
  [destruct (Z.ltb_spec (Z.of_nat (length l) - 1) 0)|destruct (Z.ltb_spec (c_card_format_index s) 0)];
  repeat split; intros; try lia;
  match goal with |- context [if ?b then _ else _] => destruct b eqn:E end;
  repeat match goal with
  | H : (_ && _)%bool = _ |- _ => apply andb_true_iff in H as [? ?] || apply andb_false_iff in H as [?|?]
  | H : (_ <=? _) = true |- _ => apply Z.leb_le in H
  | H : (_ <=? _) = false |- _ => apply Z.leb_gt in H
  | H : (_ <? _) = true |- _ => apply Z.ltb_lt in H
  | H : (_ <? _) = false |- _ => apply Z.ltb_ge in H
  end;
  match goal with |- context [if ?b then _ else _] => destruct b eqn:E' end;
  repeat match goal with
  | H : (_ <? _) = true |- _ => apply Z.ltb_lt in H
  | H : (_ <? _) = false |- _ => apply Z.ltb_ge in H
  end; try reflexivity; lia.
Qed.

(** X3. When the settings change elsewhere and the list the options event
    carries is exactly as long as the current selection, the selection
    stays at that length: no tab is checked, and a later icon change or
    name input throws (no format, no tab at that index). *)
Theorem options_shrink_selection_past_end (l : list card_format) (s : ctrl) (v w : string) :
  panel_ok s -> c_card_format_index s = Z.of_nat (length l) ->
  exists s', on_options_changed l s = Ret tt s' /\
    c_card_format_index s' = Z.of_nat (length l) /\
    filter tab_checked (c_tabs s') = [] /\
    (exists s'', on_icon_select_change v s' = Throw "TypeError" s'') /\
    (exists s'', on_name_input w s' = Throw "Element not found" s'').
Proof.
  intros Hp Hi. unfold on_options_changed. run_m.
  set (s0 := set_anki_options (Some l) s).
  assert (Hp0 : panel_ok s0) by (destruct Hp as (p & t & ic & d & m & H); exists p, t, ic, d, m; exact H).
  destruct (setup_tabs_state l s0) as (Ht & _ & Hi' & Ho & _ & _ & Hok).
  destruct (Hok Hp0) as (s' & Hs' & Hp').
  rewrite Hs'. rewrite Hs' in Ht, Hi', Ho. simpl in Ht, Hi', Ho.
  unfold s0 in Ht, Hi', Ho. simpl in Ht, Hi', Ho.
  rewrite Hi, clamp_index_id in Ht, Hi' by lia.
  exists s'. split; [reflexivity|]. split; [exact Hi'|]. split.
  - apply length_zero_iff_nil. rewrite Ht, make_tabs_checked. simpl.
    destruct (Z.ltb_spec (Z.of_nat (length l)) (Z.of_nat (length l))); [lia|].
    now rewrite andb_false_r.
  - destruct Hp' as (p & t & ic & d & m & Hp1 & _ & Hi1 & _ & _).
    split.
    + unfold on_icon_select_change. run_m. rewrite Hp1. simpl. rewrite Hi1. simpl.
      rewrite Ho, Hi'. unfold js_index.
      destruct (Z.ltb_spec (Z.of_nat (length l)) 0); [lia|].
      rewrite Nat2Z.id. replace (nth_error l (length l)) with (@None card_format)
        by (symmetry; apply nth_error_None; lia).
      eexists. reflexivity.
    + unfold on_name_input. run_m. rewrite Ht, Hi'. unfold js_index.
      destruct (Z.ltb_spec (Z.of_nat (length l)) 0); [lia|].
      rewrite Nat2Z.id. replace (nth_error (make_tabs _ 0 l) (length l)) with (@None tab)
        by (symmetry; apply nth_error_None; rewrite make_tabs_length; lia).
      eexists. reflexivity.
Qed.

(** X4. [_onIconSelectChange()] with the selection on a format of the
    controller's options: the icon select shows the new icon, and that format,
    and no other, takes the new icon in [_ankiOptions]; the profile's list
    itself is not touched. *)
Theorem icon_select_change_in_range (s : ctrl) (v : string) (l : list card_format)
    (cf : card_format) :
  panel_ok s -> c_anki_options s = Some l -> 0 <= c_card_format_index s ->
  nth_error l (Z.to_nat (c_card_format_index s)) = Some cf ->
  exists s', on_icon_select_change v s = Ret tt s' /\
    c_store s' = c_store s /\ c_card_format_index s' = c_card_format_index s /\
    (exists l', c_anki_options s' = Some l' /\ length l' = length l /\
       nth_error l' (Z.to_nat (c_card_format_index s)) = Some (with_icon cf v) /\
       forall k, k <> Z.to_nat (c_card_format_index s) -> nth_error l' k = nth_error l k) /\
    (exists p e, c_primary s' = Some p /\ pn_icon_select p = Some e /\ el_icon e = Some v).
Proof.
  intros (p & t & ic & d & m & Hp & Ht & Hic & Hd & Hm) Ho Hi Hn.
  unfold on_icon_select_change. run_m. rewrite Hp. simpl. rewrite Hic. simpl.
  rewrite Ho. unfold js_index. destruct (Z.ltb_spec (c_card_format_index s) 0); [lia|].
  rewrite Hn. simpl.
  eexists. split; [reflexivity|]. simpl. split; [reflexivity|]. split; [reflexivity|].
  split.
  - eexists. split; [reflexivity|]. split; [apply replace_nth_length|]. split.
    + apply replace_nth_same. apply nth_error_Some. congruence.
    + intros k Hk. now apply replace_nth_other.
  - do 2 eexists. repeat split; reflexivity.
Qed.

(** X5. Two [_setCardFormatIndex] calls in a row on a complete panel end
    in the state the second call alone gives: it overwrites the index, the
    panel's dataset and every input binding the first call wrote, and the
    icon it shows is read from [_ankiOptions], which the first call does not
    change. *)
Theorem set_index_last_wins (i j : Z) (menu menu' : option string) (s : ctrl) :
  panel_ok s ->
  (set_card_format_index i menu ;;; set_card_format_index j menu') s =
    set_card_format_index j menu' s.
Proof.
  intros (p & t & ic & d & m & Hp & Ht & Hi & Hd & Hm).
  destruct s as [st o ix pr ni tb dd mv mi rn mm]; simpl in Hp; subst pr.
  destruct p as [pi pm pt pic pd pmo]; simpl in Ht, Hi, Hd, Hm; subst.
  unfold set_card_format_index. run_m. reflexivity.
Qed.

(** X6. The name input's listener relabels the selected tab: with the value
    typed, or [Format <i+1>] when it is empty; no other tab changes. *)
Theorem name_input_relabels (s : ctrl) (v : string) (t : tab) :
  0 <= c_card_format_index s ->
  nth_error (c_tabs s) (Z.to_nat (c_card_format_index s)) = Some t ->
  exists s', on_name_input v s = Ret tt s' /\
    length (c_tabs s') = length (c_tabs s) /\
    nth_error (c_tabs s') (Z.to_nat (c_card_format_index s)) =
      Some (with_label t (if String.eqb v "" then
              ("Format " ++ number_to_string (c_card_format_index s + 1))%string else v)) /\
    (forall k, k <> Z.to_nat (c_card_format_index s) -> nth_error (c_tabs s') k = nth_error (c_tabs s) k) /\
    c_card_format_index s' = c_card_format_index s /\ c_store s' = c_store s.
Proof.
  intros Hi Ht. unfold on_name_input. run_m. unfold js_index.
  destruct (Z.ltb_spec (c_card_format_index s) 0); [lia|]. rewrite Ht.
  eexists. split; [reflexivity|]. simpl. split; [apply replace_nth_length|]. split.
  - apply replace_nth_same. apply nth_error_Some. congruence.
  - split; [|split; reflexivity]. intros k Hk. now apply replace_nth_other.
Qed.

(** X7. Through the public [openDeleteCardFormatModal(0)] and the dialog's
    confirm button (which do not check the count the delete button checks),
    the last remaining format is deleted: the list becomes empty, the
    selection [0], there are no tabs and the delete button is disabled. *)
Theorem remove_last_format_via_dialog (s : ctrl) :
  synced s -> length (c_store s) = 1%nat ->
  let s' := state_of ((open_delete_card_format_modal 0 ;;; on_card_format_remove_confirm) s) in
  c_store s' = [] /\ synced s' /\ c_card_format_index s' = 0 /\ c_tabs s' = [] /\
  c_delete_disabled s' = true /\ c_remove_modal_visible s' = false.
Proof.
  intros Hs Hl. destruct s as [st ao idx pr ni tb dd rv ri rn mm]. unfold synced in Hs.
  simpl in Hs, Hl. subst ao. destruct st as [|cf [|]]; try discriminate.
  unfold open_delete_card_format_modal, on_card_format_remove_confirm, get_card_format.
  run_m. unfold try_get_valid_card_format_index. simpl.
  unfold delete_card_format. run_m. unfold update_options. run_m.
  match goal with |- context [setup_tabs ?l ?s0] =>
    destruct (setup_tabs_state l s0) as (Ht & Hd & Hi & Ho & Hst & Hv & _) end.
  simpl in *. unfold synced. rewrite Ht, Hd, Hi, Ho, Hst, Hv. repeat split; reflexivity.
Qed.

(** X8. Adding a format and then deleting it ([deleteCardFormat(n)], [n] the old
    length) gives the list back; the selection ends on the last old format
    ([0] when there was none). *)
Theorem add_then_delete_restores (s : ctrl) :
  synced s -> (length (c_store s) < 5)%nat ->
  let s1 := state_of (add_new_format s) in
  let s2 := state_of (delete_card_format (Z.of_nat (length (c_store s))) s1) in
  c_store s2 = c_store s /\ synced s2 /\
  c_card_format_index s2 = Z.max (Z.of_nat (length (c_store s)) - 1) 0.
Proof.
  intros Hs Hl. cbv zeta.
  destruct (AnkiTheorems.add_new_format_state s Hl) as (H1 & H2 & _).
  assert (Hr : 0 <= Z.of_nat (length (c_store s)) <
               Z.of_nat (length (c_store (state_of (add_new_format s))))).
  { rewrite H1, length_app. simpl. lia. }
  destruct (delete_card_format_state _ _ H2 Hr) as (D1 & D2 & D3 & _).
  rewrite H1 in D1, D3. rewrite Nat2Z.id in D1, D3.
  unfold splice in D1, D3. simpl in D1, D3.
  rewrite firstn_app, firstn_all, Nat.sub_diag, app_nil_r in D1, D3. simpl in D1, D3.
  replace (length (c_store s) + 1)%nat with (length (c_store s ++ [default_card_format (length (c_store s))]))
    in D1, D3 by (rewrite length_app; simpl; lia).
  rewrite skipn_all, app_nil_r in D1, D3.
  split; [exact D1|]. split; [exact D2|]. rewrite D3. unfold clamp_index.
  destruct (Z.ltb_spec (Z.of_nat (length (c_store s))) (Z.of_nat (length (c_store s)) - 1)); [lia|].
  destruct (Z.ltb_spec (Z.of_nat (length (c_store s)) - 1) 0); lia.
Qed.

End AnkiMoreTheorems.

Module CardMoreFacts.
Import Js AnkiCard Anki Validate Markers MarkerSpec FieldNameCase AnkiMore CardMore.

Lemma num_neqb_refl (i : Z) : num_neqb (Some i) (Some i) = false.
Proof. simpl. now rewrite Z.eqb_refl. Qed.

Lemma opt_str_neqb_refl (a : option string) : opt_str_neqb a a = false.
Proof. destruct a; simpl; [now rewrite String.eqb_refl|reflexivity]. Qed.

Lemma opt_str_neqb_neq (a b : option string) : a <> b -> opt_str_neqb a b = true.
Proof.
  destruct a as [x|], b as [y|]; simpl; intros H; auto; try congruence.
  destruct (String.eqb_spec x y); [congruence|reflexivity].
Qed.

Lemma string_append_empty_r (s : string) : (s ++ "")%string = s.
Proof. induction s; simpl; congruence. Qed.

Lemma split_space_go_app (w r : string) :
  ~ In " "%char (list_ascii_of_string w) ->
  split_space_go (w ++ r) = ((w ++ fst (split_space_go r))%string, snd (split_space_go r)).
Proof.
  induction w as [|c w IH]; simpl; intros H.
  - destruct (split_space_go r); reflexivity.
  - rewrite IH by tauto. destruct (Ascii.eqb_spec c " "); [subst; tauto|]. reflexivity.
Qed.

(** [permissions.join(' ').split(' ')] gives the permissions back when none
    holds a space. *)
Lemma split_space_join (P : list string) :
  P <> [] -> Forall (fun p => ~ In " "%char (list_ascii_of_string p)) P ->
  split_space (join_space P) = P.
Proof.
  induction P as [|x [|y r] IH]; intros Hne HF; [congruence| |].
  - inversion HF as [|? ? Hx _]; subst. simpl. unfold split_space.
    pose proof (split_space_go_app x "" Hx) as E. rewrite string_append_empty_r in E.
    rewrite E. simpl. now rewrite string_append_empty_r.
  - inversion HF; subst.
    change (join_space (x :: y :: r)) with (x ++ String " " (join_space (y :: r)))%string.
    specialize (IH ltac:(congruence) H2). unfold split_space in IH |- *.
    remember (join_space (y :: r)) as J eqn:EJ.
    rewrite split_space_go_app by assumption. simpl.
    destruct (split_space_go J) as [w ws]. simpl.
    rewrite string_append_empty_r. now rewrite IH.
Qed.

Lemma join_space_nonempty (x : string) (r : list string) :
  x <> "" -> String.eqb (join_space (x :: r)) "" = false.
Proof. destruct x; [congruence|]. destruct r; reflexivity. Qed.

(** One row: re-checking a row [_validateFieldPermissions] has set up
    gives what a fresh validation against the event's permissions gives. *)
Lemma recheck_validated (contains_marker : string -> bool) (required : string -> list string)
    (granted : list string -> bool) (G : list string) (node : field_input) (i : nat) :
  Forall (fun p => p <> "" /\ ~ In " "%char (list_ascii_of_string p)) (required (fi_value node)) ->
  recheck_row contains_marker G i
    (validate_field_permissions contains_marker required granted node (Z.of_nat i)) =
  validate_field_permissions contains_marker required
    (fun P => forallb (fun p => existsb (String.eqb p) G) P) node (Z.of_nat i).
Proof.
  intros HF. unfold validate_field_permissions.
  destruct (required (fi_value node)) as [|x r] eqn:E; [reflexivity|].
  inversion HF as [|? ? [Hx _] _]; subst.
  assert (Hsplit : split_space (join_space (x :: r)) = x :: r).
  { apply split_space_join; [congruence|]. eapply Forall_impl; [|exact HF]. simpl. tauto. }
  pose proof (join_space_nonempty x r Hx) as Hne.
  remember (join_space (x :: r)) as J eqn:EJ.
  unfold recheck_row. simpl. rewrite Hne, Hsplit. reflexivity.
Qed.

Lemma recheck_rows_nth (contains_marker : string -> bool) (G : list string)
    (rows : list field_input) (j k : nat) :
  nth_error (recheck_rows contains_marker G j rows) k =
  option_map (recheck_row contains_marker G (j + k)) (nth_error rows k).
Proof.
  revert j k; induction rows as [|r rs IH]; intros j [|k]; simpl; auto.
  - now rewrite Nat.add_0_r.
  - rewrite IH. now rewrite Nat.add_succ_r.
Qed.

Lemma recheck_rows_length (contains_marker : string -> bool) (G : list string)
    (rows : list field_input) (j : nat) :
  length (recheck_rows contains_marker G j rows) = length rows.
Proof. revert j; induction rows; simpl; auto. Qed.

(** The ['i'] flag: field characters equal up to ASCII case compare alike. *)
Lemma ascii_lower_cases (c d : ascii) :
  ascii_lower c = ascii_lower d ->
  c = d \/
  ((65 <= nat_of_ascii c <= 90)%nat /\ nat_of_ascii d = (nat_of_ascii c + 32)%nat) \/
  ((65 <= nat_of_ascii d <= 90)%nat /\ nat_of_ascii c = (nat_of_ascii d + 32)%nat).
Proof.
  intros Heq. apply (f_equal nat_of_ascii) in Heq. unfold ascii_lower in Heq. revert Heq.
  pose proof (nat_ascii_bounded c) as Bc. pose proof (nat_ascii_bounded d) as Bd.
  destruct ((65 <=? nat_of_ascii c)%nat && (nat_of_ascii c <=? 90)%nat) eqn:Ec;
  destruct ((65 <=? nat_of_ascii d)%nat && (nat_of_ascii d <=? 90)%nat) eqn:Ed; intros Heq;
  apply andb_true_iff in Ec || apply andb_false_iff in Ec;
  apply andb_true_iff in Ed || apply andb_false_iff in Ed;
  repeat match goal with
  | H : _ /\ _ |- _ => destruct H
  | H : _ \/ _ |- _ => destruct H
  | H : Nat.leb _ _ = true |- _ => apply Nat.leb_le in H
  | H : Nat.leb _ _ = false |- _ => apply Nat.leb_gt in H
  end;
  rewrite ?nat_ascii_embedding in Heq by lia;
  try (right; left; lia); try (right; right; lia); try lia;
  left; rewrite <- (ascii_nat_embedding c), <- (ascii_nat_embedding d); f_equal; lia.
Qed.

Lemma canon_letter_upper (c : ascii) : (65 <= nat_of_ascii c <= 90)%nat -> canon c = c.
Proof.
  intros H. unfold canon.
  destruct (Nat.leb_spec 97 (nat_of_ascii c)); [lia|]. reflexivity.
Qed.

Lemma is_sep_letter (c : ascii) :
  (65 <= nat_of_ascii c <= 90)%nat \/ (97 <= nat_of_ascii c <= 122)%nat -> is_sep c = false.
Proof.
  intros H. unfold is_sep.
  destruct (Ascii.eqb_spec c "-") as [->|]; [cbv in H; lia|].
  destruct (Ascii.eqb_spec c "_") as [->|]; [cbv in H; lia|].
  destruct (Ascii.eqb_spec c " ") as [->|]; [cbv in H; lia|]. reflexivity.
Qed.

Lemma ascii_lower_canon_sep (c d : ascii) :
  ascii_lower c = ascii_lower d -> canon c = canon d /\ is_sep c = is_sep d.
Proof.
  intros H. destruct (ascii_lower_cases c d H) as [->|[[Hc Hd]|[Hd Hc]]]; [auto| |].
  - rewrite (is_sep_letter c), (is_sep_letter d) by lia. split; [|reflexivity].
    rewrite canon_letter_upper by lia. unfold canon. rewrite Hd.
    destruct (Nat.leb_spec 97 (nat_of_ascii c + 32)); [|lia].
    destruct (Nat.leb_spec (nat_of_ascii c + 32) 122); [|lia]. simpl.
    replace (nat_of_ascii c + 32 - 32)%nat with (nat_of_ascii c) by lia.
    now rewrite ascii_nat_embedding.
  - rewrite (is_sep_letter c), (is_sep_letter d) by lia. split; [|reflexivity].
    rewrite (canon_letter_upper d) by lia. unfold canon. rewrite Hc.
    destruct (Nat.leb_spec 97 (nat_of_ascii d + 32)); [|lia].
    destruct (Nat.leb_spec (nat_of_ascii d + 32) 122); [|lia]. simpl.
    replace (nat_of_ascii d + 32 - 32)%nat with (nat_of_ascii d) by lia.
    now rewrite ascii_nat_embedding.
Qed.

Lemma match_sep_run_cons (ps : list atom) (d : ascii) (r : string) :
  match_atoms (SepRun :: ps) (String d r) =
  match_atoms ps (String d r) || (is_sep d && match_atoms (SepRun :: ps) r).
Proof. reflexivity. Qed.

Lemma match_sep_run_nil (ps : list atom) :
  match_atoms (SepRun :: ps) EmptyString = match_atoms ps EmptyString.
Proof. simpl. now rewrite orb_false_r. Qed.

Lemma match_atoms_lower (ps : list atom) (s1 s2 : string) :
  lower_string s1 = lower_string s2 -> match_atoms ps s1 = match_atoms ps s2.
Proof.
  revert s1 s2; induction ps as [|[c|] ps IH]; intros s1 s2 H.
  - destruct s1, s2; simpl in *; congruence.
  - destruct s1 as [|d1 r1], s2 as [|d2 r2]; simpl in H; try congruence.
    injection H as Hd Hr. simpl. destruct (ascii_lower_canon_sep d1 d2 Hd) as [-> _].
    now rewrite (IH r1 r2 Hr).
  - revert s2 H; induction s1 as [|d1 r1 IHs]; intros [|d2 r2] H; simpl in H; try congruence.
    injection H as Hd Hr. rewrite !match_sep_run_cons.
    destruct (ascii_lower_canon_sep d1 d2 Hd) as [_ ->].
    rewrite (IHs r2 Hr). rewrite (IH (String d1 r1) (String d2 r2)); [reflexivity|].
    simpl. congruence.
Qed.

Lemma first_marker_lower (markers : list string) (f1 f2 : string) :
  lower_string f1 = lower_string f2 -> first_marker markers f1 = first_marker markers f2.
Proof.
  intros H. induction markers as [|m r IH]; [reflexivity|].
  assert (Hp : pattern_test (marker_names m) f1 = pattern_test (marker_names m) f2).
  { unfold pattern_test. induction (marker_names m) as [|n ns IHn]; [reflexivity|].
    simpl. now rewrite IHn, (match_atoms_lower (name_atoms n) f1 f2 H). }
  change (first_marker (m :: r) f1) with
    (if pattern_test (marker_names m) f1 then ("{" ++ m ++ "}")%string else first_marker r f1).
  change (first_marker (m :: r) f2) with
    (if pattern_test (marker_names m) f2 then ("{" ++ m ++ "}")%string else first_marker r f2).
  now rewrite Hp, IH.
Qed.

End CardMoreFacts.

Module CardMoreTheorems.
Import Js AnkiCard Anki Validate Markers FieldNameCase Predicates AnkiMore CardMore.
Import AnkiFacts AnkiMoreFacts CardMoreFacts.

(** X9. A card controller built on a node whose [data-card-format-index] is
    [str] is stale straight away exactly when [Number.parseInt(str, 10)] is
    [NaN] ([NaN !== NaN]); a node with no such entry makes the constructor
    throw. *)
Theorem fresh_controller_stale_iff_nan (str : string) (menu : option string) :
  new_card_controller None menu = inl "Undefined anki card type in node dataset" /\
  exists h, new_card_controller (Some str) menu = inr h /\ ch_cleaned h = false /\
    (is_stale h (Some str) menu = true <-> parse_int str = None).
Proof.
  split; [reflexivity|]. eexists. split; [reflexivity|]. split; [reflexivity|].
  unfold is_stale. simpl. rewrite opt_str_neqb_refl, orb_false_r.
  destruct (parse_int str); simpl; [rewrite Z.eqb_refl; simpl|]; split; congruence.
Qed.

(** X10. After [_setCardFormatIndex(i, menu)] the panel's dataset makes stale
    exactly the card controllers whose index is not [i] or whose menu is not
    [menu]; a controller built on the new dataset is not stale. *)
Theorem set_index_stale_controllers (i : Z) (menu : option string) (s : ctrl) :
  panel_ok s ->
  exists s' p, set_card_format_index i menu s = Ret tt s' /\ c_primary s' = Some p /\
    (forall h, is_stale h (pn_card_format_index p) (pn_anki_card_menu p) =
               num_neqb (ch_card_format_index h) (Some i) || opt_str_neqb (ch_card_menu h) menu) /\
    exists h, new_card_controller (pn_card_format_index p) (pn_anki_card_menu p) = inr h /\
      is_stale h (pn_card_format_index p) (pn_anki_card_menu p) = false.
Proof.
  intros Hp. destruct (set_index_facts i menu s Hp)
    as (s' & Hs' & _ & _ & _ & _ & _ & _ & _ & _ & p & _ & _ & _ & _ & Hp' & Hi & Hm & _).
  exists s', p. split; [exact Hs'|]. split; [exact Hp'|]. rewrite Hi, Hm. split.
  - intros h. unfold is_stale. now rewrite parse_int_number_to_string_all.
  - eexists. split; [reflexivity|]. unfold is_stale. simpl.
    rewrite parse_int_number_to_string_all, num_neqb_refl, opt_str_neqb_refl. reflexivity.
Qed.

(** X11. [_onDictionaryTypeSelectChange] with value [v] sets the panel's menu to
    [anki-card-<v>-field-menu] and keeps its index: every card controller
    with another menu becomes stale; the selection and the options are kept.
    With no panel it throws. *)
Theorem dictionary_type_change_stale (v : string) (s : ctrl) :
  match c_primary s with
  | None => exists s', on_dictionary_type_select_change v s = Throw "TypeError" s'
  | Some p =>
      exists s' p', on_dictionary_type_select_change v s = Ret tt s' /\ c_primary s' = Some p' /\
        pn_card_format_index p' = pn_card_format_index p /\
        pn_anki_card_menu p' = Some ("anki-card-" ++ v ++ "-field-menu")%string /\
        c_card_format_index s' = c_card_format_index s /\
        c_anki_options s' = c_anki_options s /\ c_store s' = c_store s /\
        forall h, ch_card_menu h <> pn_anki_card_menu p' ->
          is_stale h (pn_card_format_index p') (pn_anki_card_menu p') = true
  end.
Proof.
  unfold on_dictionary_type_select_change. run_m. destruct (c_primary s) as [p|].
  - do 2 eexists. split; [reflexivity|]. split; [reflexivity|]. simpl.
    repeat split; try reflexivity. intros h Hh. unfold is_stale.
    destruct (pn_card_format_index p); [|reflexivity].
    rewrite (opt_str_neqb_neq _ _ Hh). apply orb_true_r.
  - eexists. reflexivity.
Qed.

(** X12. [prepare()] of a controller whose node's index parses to a position of
    the options' list sets up that format: its fields, one row per key of
    them in [Object.entries] order, no setting written; with unique field
    names this is the state the field operations start from. After
    [cleanup()] it does nothing. *)
Theorem prepare_in_range (str : string) (menu : option string) (formats : list card_format)
    (i : Z) :
  parse_int str = Some i -> 0 <= i < Z.of_nat (length formats) ->
  exists h cf st, new_card_controller (Some str) menu = inr h /\
    nth_error formats (Z.to_nat i) = Some cf /\ prepare h formats = Prepared st /\
    cc_card_format_index st = i /\ cc_fields st = cf_fields cf /\
    cc_field_entries st = keys (entries (cf_fields cf)) /\ cc_patches st = [] /\
    (NoDup (keys (cf_fields cf)) -> card_ctrl_ok st) /\
    prepare (cleanup h) formats = PrepareSkipped.
Proof.
  intros Hparse Hi.
  destruct (nth_error formats (Z.to_nat i)) as [cf|] eqn:E.
  2:{ apply nth_error_None in E. lia. }
  eexists. exists cf. eexists. split; [reflexivity|]. split; [reflexivity|]. split.
  - unfold prepare. simpl. rewrite Hparse. unfold js_index.
    destruct (Z.ltb_spec i 0); [lia|]. rewrite E. reflexivity.
  - simpl. repeat split; auto.
Qed.

(** X13. [prepare()] of a controller whose node's index is [NaN] or no position
    of the options' list throws ['Invalid card format index']. *)
Theorem prepare_out_of_range (str : string) (menu : option string) (formats : list card_format) :
  (forall i, parse_int str = Some i -> i < 0 \/ Z.of_nat (length formats) <= i) ->
  exists h, new_card_controller (Some str) menu = inr h /\
    prepare h formats = PrepareThrew "Invalid card format index".
Proof.
  intros H. eexists. split; [reflexivity|]. unfold prepare. simpl.
  destruct (parse_int str) as [i|] eqn:E; [|reflexivity].
  destruct (H i eq_refl) as [Hi|Hi]; unfold js_index.
  - destruct (Z.ltb_spec i 0); [reflexivity|lia].
  - destruct (Z.ltb_spec i 0); [reflexivity|].
    replace (nth_error formats (Z.to_nat i)) with (@None card_format); [reflexivity|].
    symmetry. apply nth_error_None. lia.
Qed.

(** X14. [_onPermissionsChanged] keeps the rows; a row with no
    [data-required-permission] is left as it is, and a row
    [_validateFieldPermissions] set up (permissions non-empty and without
    spaces) ends as a fresh validation would leave it, the permissions
    counting as granted when the event lists all of them. *)
Theorem permissions_changed_rows (contains_marker : string -> bool)
    (required : string -> list string) (granted : list string -> bool)
    (G : list string) (rows : list field_input) :
  length (on_permissions_changed contains_marker G rows) = length rows /\
  (forall k r, nth_error rows k = Some r -> fi_required_permission r = None ->
     nth_error (on_permissions_changed contains_marker G rows) k = Some r) /\
  (forall k node,
     nth_error rows k = Some (validate_field_permissions contains_marker required granted node (Z.of_nat k)) ->
     Forall (fun p => p <> "" /\ ~ In " "%char (list_ascii_of_string p)) (required (fi_value node)) ->
     nth_error (on_permissions_changed contains_marker G rows) k =
       Some (validate_field_permissions contains_marker required
               (fun P => forallb (fun p => existsb (String.eqb p) G) P) node (Z.of_nat k))).
Proof.
  unfold on_permissions_changed. split; [apply recheck_rows_length|]. split.
  - intros k r Hk Hr. rewrite recheck_rows_nth, Hk. simpl. unfold recheck_row. now rewrite Hr.
  - intros k node Hk HF. rewrite recheck_rows_nth, Hk. simpl. f_equal.
    now apply recheck_validated.
Qed.

(** X15. [n] calls of [getAnkiData()] with no settlement in between all wait
    on one fetch: the pending one, or the one the first call starts, so each
    call's own promise settles with that fetch's result; at most one fetch
    is started. *)
Theorem get_anki_data_shared (n : nat) (m : anki_data_memo) :
  let r := get_anki_data_calls n m in
  fst r = repeat (match memo_pending m with Some p => p | None => memo_fetches m end) n /\
  memo_fetches (snd r) =
    match memo_pending m, n with None, S _ => S (memo_fetches m) | _, _ => memo_fetches m end /\
  memo_pending (snd r) =
    match n with
    | O => memo_pending m
    | S _ => Some (match memo_pending m with Some p => p | None => memo_fetches m end)
    end.
Proof.
  cbv zeta. revert m; induction n as [|n IH]; intros m; [simpl; destruct (memo_pending m); repeat split|].
  simpl. unfold get_anki_data_call. destruct (memo_pending m) as [p|] eqn:Ep.
  - specialize (IH m). destruct (get_anki_data_calls n m) as [ps m2] eqn:E. simpl in *.
    rewrite Ep in IH. destruct IH as (-> & H2 & H3). repeat split; auto.
    rewrite H3. destruct n; auto.
  - specialize (IH (mk_memo (Some (memo_fetches m)) (S (memo_fetches m)))).
    destruct (get_anki_data_calls n _) as [ps m2] eqn:E. simpl in *.
    destruct IH as (-> & H2 & H3). repeat split; auto.
    rewrite H3. destruct n; auto.
Qed.

(** X16. Once the pending promise settles, the next [getAnkiData()] starts a
    new fetch, none of the fetches the earlier calls waited on. *)
Theorem get_anki_data_refetch (n : nat) (m : anki_data_memo) :
  (forall p, memo_pending m = Some p -> (p < memo_fetches m)%nat) ->
  let r := get_anki_data_calls n m in
  let c := get_anki_data_call (settle_anki_data (snd r)) in
  (forall p, In p (fst r) -> p <> fst c) /\
  memo_fetches (snd c) = S (memo_fetches (snd r)).
Proof.
  intros Hm. cbv zeta.
  assert (Hinv : forall n m, (forall p, memo_pending m = Some p -> (p < memo_fetches m)%nat) ->
            (forall p, In p (fst (get_anki_data_calls n m)) -> (p < memo_fetches (snd (get_anki_data_calls n m)))%nat) /\
            (memo_fetches m <= memo_fetches (snd (get_anki_data_calls n m)))%nat /\
            (forall p, memo_pending (snd (get_anki_data_calls n m)) = Some p ->
               (p < memo_fetches (snd (get_anki_data_calls n m)))%nat)).
  { clear. induction n as [|n IH]; intros m Hm; [simpl; split; [tauto|split; auto]|].
    simpl. unfold get_anki_data_call. destruct (memo_pending m) as [q|] eqn:Eq.
    - destruct (IH m ltac:(intros p Hp; rewrite Eq in Hp; auto)) as (A & B & C).
      destruct (get_anki_data_calls n m) as [ps m2]. simpl in *.
      split; [|split; auto]. intros p [<-|Hp]; [specialize (Hm q eq_refl); lia|auto].
    - set (m1 := mk_memo (Some (memo_fetches m)) (S (memo_fetches m))).
      assert (Hm1 : forall p, memo_pending m1 = Some p -> (p < memo_fetches m1)%nat).
      { intros p Hp. simpl in Hp. injection Hp as <-. simpl. lia. }
      destruct (IH m1 Hm1) as (A & B & C). destruct (get_anki_data_calls n m1) as [ps m2]. simpl in *.
      split; [|split; [lia|auto]]. intros p [<-|Hp]; [lia|auto]. }
  destruct (Hinv n m Hm) as (A & _ & _). split.
  - intros p Hp. specialize (A p Hp). simpl. lia.
  - reflexivity.
Qed.

(** X17. With no saved fields, the default value [_getDefaultFieldValue] gives
    a field does not depend on the ASCII case of the field's name. *)
Theorem default_value_ignores_case (standard_markers : string -> list string)
    (f1 f2 : string) (index : Z) (entry_type : string) :
  lower_string f1 = lower_string f2 ->
  get_default_field_value standard_markers f1 index entry_type None =
  get_default_field_value standard_markers f2 index entry_type None.
Proof.
  intros H. unfold get_default_field_value.
  destruct (index =? 0); [reflexivity|]. now apply first_marker_lower.
Qed.

End CardMoreTheorems.

Module AnkiDataTheorems.
Import AnkiErrors ErrorTheorems.

Lemma show_anki_error_punct (e : js_error) (s : status) :
  ends_in_punct (st_text (show_anki_error e s)) = true.
Proof.
  simpl. set (m := if String.eqb (err_message e) "" then error_to_string e else err_message e).
  destruct (ends_in_punct m) eqn:E; [exact E|].
  apply ends_in_punct_iff. exists m, "."%char. auto.
Qed.

(** X18. [_getAnkiData()] resolves with the sorted names of each fetch that
    succeeded and an empty list for each one that failed; the status area
    is marked as an error exactly when a fetch failed, its text then ending in
    [.], [!] or [?]; when both succeeded it reads [Enabled] or
    [Not enabled] and [_ankiError] is cleared. *)
Theorem get_anki_data_status (sort : list string -> list string) (default_content : string)
    (enabled : bool) (deck_call model_call : outcome (list string)) (s : status) :
  let names c := match c with Resolved r => sort r | Rejected _ => [] end in
  let failed c := match c with Resolved _ => false | Rejected _ => true end in
  let '(o, s') := get_anki_data sort default_content enabled deck_call model_call s in
  o = Resolved (mk_anki_data (names deck_call) (names model_call)) /\
  st_danger s' = failed deck_call || failed model_call /\
  (st_danger s' = true -> ends_in_punct (st_text s') = true) /\
  (st_danger s' = false ->
     st_text s' = (if enabled then "Enabled" else "Not enabled") /\ st_anki_error s' = None).
Proof.
  cbv zeta. unfold get_anki_data.
  destruct deck_call as [d|ed], model_call as [m|em]; simpl;
    repeat split; try discriminate;
    intros _; match goal with |- context [to_error ?e] =>
      exact (show_anki_error_punct (to_error e) (set_anki_status_changing default_content s)) end.
Qed.

End AnkiDataTheorems.

Module LifecycleTheorems.
Import Js AnkiCard Anki AnkiMore Lifecycle Predicates AnkiFacts.

Lemma keeps_bind {A B} (m : M A) (k : A -> M B) :
  keeps_primary m -> (forall a, keeps_primary (k a)) -> keeps_primary (bind m k).
Proof.
  intros Hm Hk s Hs. unfold bind. specialize (Hm s Hs).
  destruct (m s) as [a s'|e s']; simpl in *; [apply Hk|]; exact Hm.
Qed.

Lemma keeps_ret {A} (a : A) : keeps_primary (ret a).
Proof. intros s Hs. exact Hs. Qed.

Lemma keeps_get : keeps_primary get_st.
Proof. intros s Hs. exact Hs. Qed.

Lemma keeps_throw {A} (msg : string) : keeps_primary (@throw A msg).
Proof. intros s Hs. exact Hs. Qed.

Lemma keeps_query {X} (o : option X) : keeps_primary (query_not_null o).
Proof. intros s Hs. destruct o; exact Hs. Qed.

Lemma keeps_modify (f : ctrl -> ctrl) :
  (forall s, c_primary s <> None -> c_primary (f s) <> None) -> keeps_primary (modify f).
Proof. intros Hf s Hs. exact (Hf s Hs). Qed.

Ltac keeps_tac :=
  repeat match goal with
  | |- keeps_primary (bind _ _) => apply keeps_bind; [|intro; cbv beta]
  | |- keeps_primary (modify _) =>
      apply keeps_modify; let s := fresh "s" in let Hs := fresh "Hs" in
      intros s Hs; simpl; first [exact Hs | discriminate]
  | |- keeps_primary (ret _) => apply keeps_ret
  | |- keeps_primary get_st => apply keeps_get
  | |- keeps_primary (throw _) => apply keeps_throw
  | |- keeps_primary (query_not_null _) => apply keeps_query
  | |- keeps_primary (match ?x with _ => _ end) => destruct x
  end.

Lemma set_card_format_index_keeps_primary (i : Z) (menu : option string) :
  keeps_primary (set_card_format_index i menu).
Proof. unfold set_card_format_index. cbv zeta. keeps_tac. Qed.

Lemma update_options_keeps_primary : keeps_primary update_options.
Proof.
  unfold update_options, setup_tabs. cbv zeta. keeps_tac.
  apply set_card_format_index_keeps_primary.
Qed.

Lemma delete_card_format_keeps_primary (i : Z) : keeps_primary (delete_card_format i).
Proof.
  unfold delete_card_format. keeps_tac. apply update_options_keeps_primary.
Qed.

Lemma run_event_keeps_primary (e : anki_event) : keeps_primary (run_event e).
Proof.
  destruct e; simpl.
  - apply update_options_keeps_primary.
  - unfold on_options_changed, setup_tabs. cbv zeta. keeps_tac.
    apply set_card_format_index_keeps_primary.
  - keeps_tac.
  - keeps_tac.
  - apply set_card_format_index_keeps_primary.
  - unfold add_new_format. cbv zeta. keeps_tac. apply update_options_keeps_primary.
  - unfold on_card_format_delete_click, open_delete_card_format_modal. keeps_tac.
  - unfold open_delete_card_format_modal. keeps_tac.
  - unfold on_card_format_remove_confirm. cbv zeta. keeps_tac.
    apply delete_card_format_keeps_primary.
  - apply delete_card_format_keeps_primary.
  - unfold on_icon_select_change. keeps_tac.
  - unfold on_name_input. cbv zeta. keeps_tac.
  - unfold on_dictionary_type_select_change. keeps_tac.
Qed.

(** Nothing a controller runs removes its panel element. *)
Lemma reachable_primary (s : ctrl) : reachable s -> c_primary s <> None.
Proof.
  induction 1 as [dom s Hnew|s e _ IH].
  - unfold new_anki_controller in Hnew.
    destruct (c_primary dom) eqn:E; [|discriminate].
    injection Hnew as <-. simpl. rewrite E. discriminate.
  - apply run_event_keeps_primary. exact IH.
Qed.

Lemma run_events_reachable (es : list anki_event) (s : ctrl) :
  reachable s -> reachable (run_events es s).
Proof.
  revert s. induction es as [|e r IH]; intros s Hs; simpl; [exact Hs|].
  apply IH. apply reach_event. exact Hs.
Qed.

(** C4 (setSelectedFormat). In every state a controller can be in, its
    backing panel element is present: the constructor's
    [querySelectorNotNull(document, '#anki-card-primary')] throws on a page
    without one, and nothing afterwards clears the field. So the
    absent-panel case never arises, and the throw of [_setCardFormatIndex]
    for it is never taken. The call sets the active format index, and with
    the panel's inputs present it returns normally and records the index
    and menu on the panel. *)
Theorem set_selected_format_spec (s : ctrl) (i : Z) (menu : option string) :
  reachable s ->
  c_primary s <> None /\
  c_card_format_index (state_of (set_card_format_index i menu s)) = i /\
  (panel_ok s ->
     exists s', set_card_format_index i menu s = Ret tt s' /\
       c_card_format_index s' = i /\ c_store s' = c_store s /\
       exists p, c_primary s' = Some p /\
         pn_card_format_index p = Some (number_to_string i) /\ pn_anki_card_menu p = menu).
Proof.
  intros Hr. split; [exact (reachable_primary s Hr)|]. split.
  - destruct (set_card_format_index_state i menu s) as (_ & _ & H & _). exact H.
  - intros (p & t & ic & d & m & Hp & Ht & Hi & Hd & Hm).
    unfold set_card_format_index. run_m. rewrite Hp. simpl.
    rewrite Ht, Hi, Hd, Hm. simpl. eexists. split; [reflexivity|].
    split; [reflexivity|]. split; [reflexivity|].
    eexists. split; [reflexivity|]. split; reflexivity.
Qed.

End LifecycleTheorems.

(* ------------------------------------------------------------------------- *)
(** ** Examples *)

Module JsExamples.
Import Js Fixtures.
Example e1 : number_to_string 12 = "12". Proof. reflexivity. Qed.
Example e2 : number_to_string 0 = "0". Proof. reflexivity. Qed.
Example e3 : parse_int " 42x" = Some 42. Proof. reflexivity. Qed.
Example e4 : trim "  ab c " = "ab c". Proof. reflexivity. Qed.
Example e5 : is_array_index "0" = true /\ is_array_index "01" = false /\ is_array_index "12" = true /\ is_array_index "Field" = false. Proof. repeat split; reflexivity. Qed.
Example e6 : entries [("b", 1); ("10", 2); ("a", 3); ("2", 4)] = [("2", 4); ("10", 2); ("b", 1); ("a", 3)]. Proof. reflexivity. Qed.
End JsExamples.

Module AnkiCardExamples.
Import Js AnkiCard Fixtures.
Example add1 : cc_field_entries (on_add_field_click st0) = ["Front"; "Back"; "Field"; "Field1"].
Proof. reflexivity. Qed.
Example ren1 : cc_field_entries (fst (on_field_name_blur st0 0 " Word ")) = ["Back"; "Field"; "Word"].
Proof. reflexivity. Qed.
Example ren2 : on_field_name_blur st0 0 "Back" = (st0, "Front").
Proof. reflexivity. Qed.
Example ren3 : cc_field_entries (fst (on_field_name_blur st0 1 "7")) = ["7"; "Front"; "Field"].
Proof. reflexivity. Qed.
End AnkiCardExamples.

Module AnkiExamples.
Import Js AnkiCard Anki Fixtures.
Example d1 : match delete_format (s3 2) with Ret _ s => Some (map cf_name (c_store s), c_card_format_index s, map tab_menu (c_tabs s)) | _ => None end
  = Some (["A"; "B"], 1, ["anki-card-term-field-menu"; "anki-card-term-field-menu"]).
Proof. vm_compute. reflexivity. Qed.
Example a1 : match add_new_format (s3 2) with Ret _ s => Some (map cf_name (c_store s), c_card_format_index s) | _ => None end
  = Some (["A"; "B"; "C"; "Format 4"], 2).
Proof. vm_compute. reflexivity. Qed.
End AnkiExamples.

Module MoreExamples.
Import Js Markers Validate AnkiErrors Fixtures.
Example m1 : get_default_field_value standard_markers_modelled "Term-Reading" 1 "term" None = "{reading}".
Proof. vm_compute. reflexivity. Qed.
Example m2 : get_default_field_value standard_markers_modelled "unknown-field" 1 "term" None = "".
Proof. vm_compute. reflexivity. Qed.
Example m3 : get_default_field_value standard_markers_modelled "Pitch__ Accent" 2 "term" None = "{pitch-accents}".
Proof. vm_compute. reflexivity. Qed.
Example m4 : get_default_field_value standard_markers_modelled "Selection" 2 "term" None = "".
Proof. vm_compute. reflexivity. Qed.
Example r1 : st_text (snd (get_anki_data (fun l => l) "" true (Rejected (mk_error "Error" "boom")) (Resolved []) (mk_status "" false None))) = "boom.".
Proof. reflexivity. Qed.
Example r2 : st_text (snd (get_anki_data (fun l => l) "" true (Rejected (mk_error "Error" "")) (Resolved []) (mk_status "" false None))) = "Error.".
Proof. reflexivity. Qed.
(** On a page without [#anki-card-primary] the constructor throws. *)
Example l1 : Lifecycle.new_anki_controller (s3_no_panel 0) = inl "Element not found".
Proof. reflexivity. Qed.
(** [started] holds four formats; the constructor's index 0 stays selected. *)
Example l2 : length (Anki.c_store Lifecycle.started) = 4%nat /\
  Anki.c_card_format_index Lifecycle.started = 0%Z.
Proof. vm_compute. split; reflexivity. Qed.
End MoreExamples.

(* ------------------------------------------------------------------------- *)
(** ** The theorems at concrete inputs, and counterexamples *)

Module Instances.
Import Js AnkiCard Anki Markers MarkerSpec Validate AnkiErrors Predicates Fixtures Lifecycle.
Import AnkiTheorems CardTheorems MarkerTheorems ValidateTheorems ErrorTheorems.

Lemma st0_ok : card_ctrl_ok st0.
Proof.
  split; [reflexivity|]. vm_compute.
  repeat (apply NoDup_cons; [simpl; intros H; repeat destruct H as [H|H]; try discriminate; contradiction|]).
  apply NoDup_nil.
Qed.

Lemma delete_format_spec_witness :
  synced (s3 1) /\ c_remove_modal_visible (s3 1) = false /\
  length (c_store (state_of (delete_format (s3 1)))) = 2%nat.
Proof.
  assert (H1 : synced (s3 1)) by reflexivity.
  assert (H2 : c_remove_modal_visible (s3 1) = false) by reflexivity.
  destruct (delete_format_spec (s3 1) H1 H2) as [_ H].
  assert (H3 : (2 <= length (c_store (s3 1)))%nat) by (simpl; lia).
  assert (H4 : 0 <= c_card_format_index (s3 1) < Z.of_nat (length (c_store (s3 1))))
    by (simpl; lia).
  destruct (H H3 H4) as (_ & Hl & _).
  split; [exact H1|]. split; [exact H2|]. rewrite Hl. reflexivity.
Defined.

Lemma insert_delete_selection_witness :
  synced (s3 2) /\ c_card_format_index (state_of (delete_card_format 2 (s3 2))) = 1.
Proof.
  assert (H1 : synced (s3 2)) by reflexivity.
  destruct (insert_delete_selection (s3 2) 2 H1) as [_ H].
  assert (H3 : (2 <= length (c_store (s3 2)))%nat) by (simpl; lia).
  assert (H4 : 0 <= 2 < Z.of_nat (length (c_store (s3 2)))) by (simpl; lia).
  destruct (H H3 H4) as (_ & Hi & _).
  split; [exact H1|]. rewrite Hi. reflexivity.
Defined.

Lemma add_format_spec_witness :
  (length (c_store (state_of (add_new_format (s3 0)))) <= 5)%nat.
Proof.
  destruct (add_format_spec (s3 0)) as (_ & _ & H).
  apply H. simpl. lia.
Defined.

Lemma set_selected_format_spec_witness :
  reachable started /\ c_primary started <> None /\
  exists s', set_card_format_index 1 None started = Ret tt s' /\ c_card_format_index s' = 1.
Proof.
  assert (Hr : reachable started).
  { apply LifecycleTheorems.run_events_reachable. apply (reach_new (s3 7)). reflexivity. }
  destruct (LifecycleTheorems.set_selected_format_spec started 1 None Hr) as (Hp & _ & H).
  split; [exact Hr|]. split; [exact Hp|].
  assert (Hok : panel_ok started) by (unfold panel_ok; vm_compute; do 5 eexists; repeat split).
  destruct (H Hok) as (s' & Hs & Hi & _). exists s'. split; assumption.
Defined.

Lemma rename_field_spec_witness :
  card_ctrl_ok st0 /\
  get (cc_fields (fst (on_field_name_blur st0 0 " Word "))) "Word" =
    Some (mk_field "{expression}" "coalesce").
Proof.
  assert (H0 : nth_error (cc_field_entries st0) 0 = Some "Front") by reflexivity.
  destruct (rename_field_spec st0 0 " Word " "Front" st0_ok H0) as (_ & _ & H).
  assert (Ha : trim " Word " <> "Front") by (vm_compute; discriminate).
  assert (Hb : trim " Word " <> "") by (vm_compute; discriminate).
  assert (Hc : has_own (cc_fields st0) (trim " Word ") = false) by reflexivity.
  destruct (H Ha Hb Hc) as (_ & Hg & _).
  split; [exact st0_ok|]. exact Hg.
Defined.

Lemma rename_field_position_witness :
  exists pre, entries (cc_fields (fst (on_field_name_blur st0 0 " Word "))) =
              pre ++ [("Word", mk_field "{expression}" "coalesce")].
Proof.
  assert (H0 : nth_error (cc_field_entries st0) 0 = Some "Front") by reflexivity.
  assert (Ha : trim " Word " <> "Front") by (vm_compute; discriminate).
  assert (Hb : trim " Word " <> "") by (vm_compute; discriminate).
  assert (Hc : has_own (cc_fields st0) (trim " Word ") = false) by reflexivity.
  destruct (rename_field_position st0 0 " Word " "Front" st0_ok H0 Ha Hb Hc)
    as (f & Hf & H & _).
  assert (Hi : is_array_index (trim " Word ") = false) by reflexivity.
  destruct (H Hi) as [pre Hpre]. exists pre.
  rewrite Hpre. vm_compute in Hf. injection Hf as <-. reflexivity.
Defined.

Lemma add_field_spec_witness : card_ctrl_ok (on_add_field_click st0).
Proof.
  destruct (add_field_spec st0 st0_ok) as (k & _ & _ & _ & _ & _ & _ & H). exact H.
Defined.

Lemma default_field_value_spec_witness :
  get_default_field_value standard_markers_modelled "Term-Reading" 1 "term" None = "{reading}" /\
  get_default_field_value standard_markers_modelled "unknown-field" 1 "term" None = "".
Proof.
  assert (H1 : 1 <> 0) by lia.
  destruct (default_field_value_spec standard_markers_modelled "Term-Reading" 1 "term" H1)
    as (_ & Hr & _).
  destruct (default_field_value_spec standard_markers_modelled "unknown-field" 1 "term" H1)
    as (_ & _ & Hu).
  split.
  - apply Hr; [vm_compute; tauto|].
    intros m Hm Hne Hx. apply match_atoms_relaxed in Hx. vm_compute in Hm.
    repeat (destruct Hm as [Hm|Hm]; [subst m; try congruence; vm_compute in Hx; discriminate|]).
    contradiction.
  - apply Hu. intros m Hm Hx. apply match_atoms_relaxed in Hx. vm_compute in Hm.
    repeat (destruct Hm as [Hm|Hm]; [subst m; vm_compute in Hx; discriminate|]).
    contradiction.
Defined.

Lemma validate_field_spec_witness :
  fi_invalid (validate_field (fun _ => false) (mk_field_input "x" None None None) 0) = Some "true".
Proof.
  destruct (validate_field_spec (fun _ => false) (fun _ => []) (fun _ => true)
              (mk_field_input "x" None None None) 0) as [[_ H] _].
  apply H. right. split; reflexivity.
Defined.

Lemma anki_error_display_witness :
  snd (get_anki_data (fun l => l) "" true (Rejected (mk_error "Error" "boom")) (Resolved [])
         (mk_status "" false None)) =
    show_anki_error (mk_error "Error" "boom") (set_anki_status_changing "" (mk_status "" false None)).
Proof.
  destruct (anki_error_display (fun l => l) "" true (Rejected (mk_error "Error" "boom"))
              (Resolved []) (mk_status "" false None) (mk_error "Error" "boom"))
    as (_ & _ & H & _).
  apply H. left. reflexivity.
Defined.

(** C2 fails: with the selection at 0, deleting the format at index 2 (after
    the cursor) moves the selection to 1. *)
Lemma delete_after_cursor_moves_selection :
  synced (s3 0) /\ c_card_format_index (s3 0) = 0 /\
  c_card_format_index (state_of (delete_card_format 2 (s3 0))) = 1.
Proof. split; [reflexivity|]. split; reflexivity. Qed.

(** C9 fails: an error with an empty message is shown as [Error.], not as
    the message with a period appended. *)
Lemma empty_message_error_display :
  st_text (snd (get_anki_data (fun l => l) "" true (Rejected (mk_error "Error" ""))
                  (Resolved []) (mk_status "" false None))) = "Error." /\
  ends_in_punct "" = false /\ "Error." <> ("" ++ ".")%string.
Proof. split; [reflexivity|]. split; [reflexivity|discriminate]. Qed.

(** C10 fails: renaming the second field to [7], an array index, moves it
    to the first row, not the last. *)
Lemma rename_to_index_goes_first :
  card_ctrl_ok st0 /\ nth_error (cc_field_entries st0) 1 = Some "Back" /\
  trim "7" <> "Back" /\ trim "7" <> "" /\ has_own (cc_fields st0) "7" = false /\
  cc_field_entries (fst (on_field_name_blur st0 1 "7")) = ["7"; "Front"; "Field"].
Proof.
  split; [exact st0_ok|].
  split; [reflexivity|]. split; [discriminate|]. split; [discriminate|].
  split; reflexivity.
Qed.

End Instances.

Module ExtraInstances.
Import Js AnkiCard Anki Markers Predicates Fixtures AnkiMore CardMore AnkiErrors FieldNameCase.
Import AnkiMoreTheorems CardMoreTheorems.

Lemma s3_panel_ok (c : Z) : panel_ok (s3 c).
Proof. exists pn0, el0, el0, el0, el0. repeat split. Qed.

Lemma options_shrink_selection_past_end_witness :
  panel_ok (s3 2) /\ c_card_format_index (s3 2) = Z.of_nat (length [fmt "A"; fmt "B"]) /\
  exists s', on_options_changed [fmt "A"; fmt "B"] (s3 2) = Ret tt s' /\
    filter tab_checked (c_tabs s') = [].
Proof.
  assert (H1 : panel_ok (s3 2)) by apply s3_panel_ok.
  assert (H2 : c_card_format_index (s3 2) = Z.of_nat (length [fmt "A"; fmt "B"])) by reflexivity.
  destruct (options_shrink_selection_past_end [fmt "A"; fmt "B"] (s3 2) "star" "X" H1 H2)
    as (s' & Hr & _ & Hf & _).
  split; [exact H1|]. split; [exact H2|]. exists s'. split; assumption.
Defined.

Lemma icon_select_change_in_range_witness :
  panel_ok (s3 1) /\
  exists s' l', on_icon_select_change "star" (s3 1) = Ret tt s' /\
    c_anki_options s' = Some l' /\ nth_error l' 1 = Some (with_icon (fmt "B") "star").
Proof.
  assert (H1 : panel_ok (s3 1)) by apply s3_panel_ok.
  assert (H2 : c_anki_options (s3 1) = Some [fmt "A"; fmt "B"; fmt "C"]) by reflexivity.
  assert (H3 : 0 <= c_card_format_index (s3 1)) by (simpl; lia).
  assert (H4 : nth_error [fmt "A"; fmt "B"; fmt "C"] (Z.to_nat (c_card_format_index (s3 1))) =
               Some (fmt "B")) by reflexivity.
  destruct (icon_select_change_in_range (s3 1) "star" _ _ H1 H2 H3 H4)
    as (s' & Hr & _ & _ & (l' & Hl & _ & Hn & _) & _).
  split; [exact H1|]. exists s', l'. split; [exact Hr|]. split; [exact Hl|]. exact Hn.
Defined.

Lemma set_index_last_wins_witness :
  panel_ok (s3 0) /\
  (set_card_format_index 2 (Some "anki-card-kanji-field-menu") ;;;
     set_card_format_index 1 None) (s3 0) = set_card_format_index 1 None (s3 0).
Proof.
  assert (H1 : panel_ok (s3 0)) by apply s3_panel_ok.
  split; [exact H1|].
  exact (set_index_last_wins 2 1 (Some "anki-card-kanji-field-menu") None (s3 0) H1).
Defined.

Lemma name_input_relabels_witness :
  let s := state_of (on_options_changed [fmt "A"; fmt "B"; fmt "C"] (s3 1)) in
  0 <= c_card_format_index s /\
  exists t, nth_error (c_tabs s) 1 = Some t /\
  exists s', on_name_input "" s = Ret tt s' /\
    nth_error (c_tabs s') 1 = Some (with_label t "Format 2").
Proof.
  intros s.
  assert (H1 : 0 <= c_card_format_index s) by (vm_compute; discriminate).
  assert (E : c_card_format_index s = 1) by reflexivity.
  destruct (nth_error (c_tabs s) (Z.to_nat (c_card_format_index s))) as [t|] eqn:H2;
    [|vm_compute in H2; discriminate].
  destruct (name_input_relabels s "" t H1 H2) as (s' & Hr & _ & Hn & _).
  rewrite E in H2, Hn.
  split; [exact H1|]. exists t. split; [exact H2|]. exists s'. split; [exact Hr|].
  exact Hn.
Defined.

Lemma remove_last_format_via_dialog_witness :
  synced s1 /\ length (c_store s1) = 1%nat /\
  c_store (state_of ((open_delete_card_format_modal 0 ;;; on_card_format_remove_confirm) s1)) = [].
Proof.
  assert (H1 : synced s1) by reflexivity.
  assert (H2 : length (c_store s1) = 1%nat) by reflexivity.
  destruct (remove_last_format_via_dialog s1 H1 H2) as (H & _).
  split; [exact H1|]. split; [exact H2|]. exact H.
Defined.

Lemma add_then_delete_restores_witness :
  synced (s3 0) /\ (length (c_store (s3 0)) < 5)%nat /\
  c_store (state_of (delete_card_format 3 (state_of (add_new_format (s3 0))))) = c_store (s3 0).
Proof.
  assert (H1 : synced (s3 0)) by reflexivity.
  assert (H2 : (length (c_store (s3 0)) < 5)%nat) by (simpl; lia).
  destruct (add_then_delete_restores (s3 0) H1 H2) as (H & _).
  split; [exact H1|]. split; [exact H2|]. exact H.
Defined.

Lemma set_index_stale_controllers_witness :
  panel_ok (s3 0) /\
  exists s' p, set_card_format_index 1 (Some "anki-card-term-field-menu") (s3 0) = Ret tt s' /\
    c_primary s' = Some p /\
    is_stale (mk_card_head (Some 0) (Some "anki-card-term-field-menu") false)
      (pn_card_format_index p) (pn_anki_card_menu p) = true.
Proof.
  assert (H1 : panel_ok (s3 0)) by apply s3_panel_ok.
  destruct (set_index_stale_controllers 1 (Some "anki-card-term-field-menu") (s3 0) H1)
    as (s' & p & Hr & Hp & Hs & _).
  split; [exact H1|]. exists s', p. split; [exact Hr|]. split; [exact Hp|].
  rewrite Hs. reflexivity.
Defined.

Lemma prepare_in_range_witness :
  parse_int "1" = Some 1 /\ 0 <= 1 < Z.of_nat (length [fmt "A"; fmt "B"; fmt "C"]) /\
  exists h st, new_card_controller (Some "1") None = inr h /\
    prepare h [fmt "A"; fmt "B"; fmt "C"] = Prepared st /\ cc_card_format_index st = 1.
Proof.
  assert (H1 : parse_int "1" = Some 1) by reflexivity.
  assert (H2 : 0 <= 1 < Z.of_nat (length [fmt "A"; fmt "B"; fmt "C"])) by (simpl; lia).
  destruct (prepare_in_range "1" None [fmt "A"; fmt "B"; fmt "C"] 1 H1 H2)
    as (h & cf & st & Hh & _ & Hp & Hi & _).
  split; [exact H1|]. split; [exact H2|]. exists h, st. auto.
Defined.

Lemma prepare_out_of_range_witness :
  (forall i, parse_int "3" = Some i -> i < 0 \/ Z.of_nat (length [fmt "A"; fmt "B"; fmt "C"]) <= i) /\
  exists h, new_card_controller (Some "3") None = inr h /\
    prepare h [fmt "A"; fmt "B"; fmt "C"] = PrepareThrew "Invalid card format index".
Proof.
  assert (H1 : forall i, parse_int "3" = Some i ->
                 i < 0 \/ Z.of_nat (length [fmt "A"; fmt "B"; fmt "C"]) <= i).
  { intros i Hi. vm_compute in Hi. injection Hi as <-. right. simpl. lia. }
  split; [exact H1|]. exact (prepare_out_of_range "3" None [fmt "A"; fmt "B"; fmt "C"] H1).
Defined.

Lemma get_anki_data_refetch_witness :
  (forall p, memo_pending (mk_memo None 0) = Some p -> (p < memo_fetches (mk_memo None 0))%nat) /\
  fst (get_anki_data_call (settle_anki_data (snd (get_anki_data_calls 3 (mk_memo None 0))))) <> 0%nat.
Proof.
  assert (H1 : forall p, memo_pending (mk_memo None 0) = Some p ->
                 (p < memo_fetches (mk_memo None 0))%nat) by (intros p Hp; discriminate).
  destruct (get_anki_data_refetch 3 (mk_memo None 0) H1) as [H _].
  split; [exact H1|]. intros E. apply (H 0%nat); [simpl; auto|]. symmetry. exact E.
Defined.

Lemma default_value_ignores_case_witness :
  lower_string "Reading" = lower_string "READING" /\
  get_default_field_value standard_markers_modelled "READING" 1 "term" None = "{reading}".
Proof.
  assert (H1 : lower_string "Reading" = lower_string "READING") by reflexivity.
  split; [exact H1|].
  rewrite <- (default_value_ignores_case standard_markers_modelled "Reading" "READING" 1 "term" H1).
  reflexivity.
Defined.

End ExtraInstances.
